(** * Voice finance tracker: recording lifecycle, transaction extraction,
      transcription endpoint and transaction store.

    A shallow embedding of
      - [parseTransactionFromText] and [POST] of the transcription route,
      - [startRecording] / [stopRecording] / [resetRecording] and the
        [onstop] handler of the voice recorder component,
      - [updateTransaction] / [removeTransaction] of the transaction store,
    together with the properties the specification states about them, and of
      - the other operations of the store ([addTransaction],
        [clearTransactions], [getTotalSpent], [getSpentByCategory],
        [getSpentThisMonth], [getSpentThisWeek]),
      - [handleSave] of the edit form and [handleTranscription] of the page,
      - [formatDuration] of the recorder,
    with the properties that the code itself shows.

    Modelling conventions.
      - A JavaScript string is a [list ascii]: one element per code unit, in
        the Latin-1 range.  Literals are written [str "..."].
      - A JavaScript number is a [number]: [NaN] or an exact rational.
        Binary rounding of doubles is not modelled; arithmetic is exact.
      - Regular expressions are kept as syntax trees and run by a
        backtracking matcher in continuation-passing style, the way
        ECMA-262 defines pattern semantics (greedy and lazy quantifiers,
        alternation in priority order, capture groups, [$] and [\b]).
      - Timers and asynchronous callbacks of the recorder are events of a
        labelled transition system over an explicit world state with a
        logical clock in milliseconds. *)

From Stdlib Require Import String Ascii List Bool Arith NArith ZArith QArith
  Qfield Qround Qminmax DecimalString DecimalN Lia Lqa.
Import ListNotations.

Set Implicit Arguments.
Close Scope Q_scope.

(* ===================================================================== *)
(** ** JavaScript strings and numbers *)
(* ===================================================================== *)

Module Js.

Definition jsstring := list ascii.

Definition str (s : string) : jsstring := list_ascii_of_string s.

Definition code (c : ascii) : nat := nat_of_ascii c.

Definition in_range (lo hi : nat) (c : ascii) : bool :=
  (lo <=? code c) && (code c <=? hi).

(** [\d] *)
Definition is_digit (c : ascii) : bool := in_range 48 57 c.

Definition is_upper (c : ascii) : bool := in_range 65 90 c.
Definition is_lower (c : ascii) : bool := in_range 97 122 c.

(** [[A-Za-z]] *)
Definition is_alpha (c : ascii) : bool := is_upper c || is_lower c.

(** [\w], the word characters that [\b] looks at. *)
Definition is_word (c : ascii) : bool :=
  is_alpha c || is_digit c || (code c =? 95).

(** [\s] and the characters [trim] strips: TAB, LF, VT, FF, CR, space and
    the no-break space. *)
Definition is_space (c : ascii) : bool :=
  in_range 9 13 c || (code c =? 32) || (code c =? 160).

(** [String.prototype.toLowerCase] on one code unit: A-Z and the Latin-1
    capitals (all of 192..222 but the multiplication sign 215). *)
Definition lower_char (c : ascii) : ascii :=
  if is_upper c || (in_range 192 222 c && negb (code c =? 215))
  then ascii_of_nat (code c + 32)
  else c.

Definition toLowerCase (s : jsstring) : jsstring := map lower_char s.

Definition ascii_eqb (a b : ascii) : bool := Ascii.eqb a b.

Fixpoint jsstring_eqb (a b : jsstring) : bool :=
  match a, b with
  | [], [] => true
  | x :: a', y :: b' => ascii_eqb x y && jsstring_eqb a' b'
  | _, _ => false
  end.

Fixpoint starts_with (p s : jsstring) : bool :=
  match p, s with
  | [], _ => true
  | x :: p', y :: s' => ascii_eqb x y && starts_with p' s'
  | _ :: _, [] => false
  end.

(** [s.includes(p)] *)
Fixpoint includes (s p : jsstring) : bool :=
  starts_with p s ||
  match s with
  | [] => false
  | _ :: s' => includes s' p
  end.

Fixpoint trimStart (s : jsstring) : jsstring :=
  match s with
  | c :: s' => if is_space c then trimStart s' else s
  | [] => []
  end.

(** [s.trim()] *)
Definition trim (s : jsstring) : jsstring :=
  rev (trimStart (rev (trimStart s))).

(** [s.substring(0, n)] *)
Definition substring0 (n : nat) (s : jsstring) : jsstring := firstn n s.

(** Numbers: [NaN] or an exact rational. *)
Inductive number : Type :=
| NaN
| Num (q : Q).

Definition num_add (a b : number) : number :=
  match a, b with
  | Num x, Num y => Num (x + y)%Q
  | _, _ => NaN
  end.

Definition num_mul (a b : number) : number :=
  match a, b with
  | Num x, Num y => Num (x * y)%Q
  | _, _ => NaN
  end.

Definition num_div (a b : number) : number :=
  match a, b with
  | Num x, Num y => if Qeq_bool y 0 then NaN else Num (x / y)%Q
  | _, _ => NaN
  end.

(** [a > b]; false as soon as one side is [NaN]. *)
Definition num_gt (a b : number) : bool :=
  match a, b with
  | Num x, Num y => negb (Qle_bool x y)
  | _, _ => false
  end.

(** [Math.round]: the nearest integer, halves towards plus infinity. *)
Definition Math_round (a : number) : number :=
  match a with
  | Num x => Num (inject_Z (Qfloor (x + (1 # 2))%Q))
  | NaN => NaN
  end.

Definition Math_min (a b : number) : number :=
  match a, b with
  | Num x, Num y => Num (Qmin x y)
  | _, _ => NaN
  end.

(** [x || 0] on a number: zero and [NaN] are falsy. *)
Definition or_zero (a : number) : number :=
  match a with
  | Num x => if Qeq_bool x 0 then Num 0%Q else Num x
  | NaN => Num 0%Q
  end.

(** Equality of numbers as values ([NaN] equals nothing). *)
Definition num_eq (a b : number) : Prop :=
  match a, b with
  | Num x, Num y => (x == y)%Q
  | _, _ => False
  end.

Definition digit_value (c : ascii) : Z := Z.of_nat (code c - 48).

(** Value of a run of decimal digits, most significant first. *)
Definition digits_value (ds : jsstring) : Z :=
  fold_left (fun acc c => (10 * acc + digit_value c)%Z) ds 0%Z.

Fixpoint span_digits (s : jsstring) : jsstring * jsstring :=
  match s with
  | c :: s' =>
      if is_digit c
      then let (ds, tl) := span_digits s' in (c :: ds, tl)
      else ([], s)
  | [] => ([], [])
  end.

(** [parseInt(s)] on an unsigned decimal numeral: the leading digits, [NaN]
    when there is none. *)
Definition parseInt (s : jsstring) : number :=
  match fst (span_digits s) with
  | [] => NaN
  | ds => Num (inject_Z (digits_value ds))
  end.

(** [parseFloat(s)] on an unsigned decimal numeral: the leading digits and,
    when a point and more digits follow, the fraction. *)
Definition parseFloat (s : jsstring) : number :=
  let (ds, tl) := span_digits s in
  match ds with
  | [] => NaN
  | _ =>
      match tl with
      | "."%char :: tl' =>
          let fs := fst (span_digits tl') in
          Num (inject_Z (digits_value ds)
               + inject_Z (digits_value fs) / inject_Z (10 ^ Z.of_nat (length fs)))%Q
      | _ => Num (inject_Z (digits_value ds))
      end
  end.

End Js.

(* ===================================================================== *)
(** ** Regular expressions *)
(* ===================================================================== *)

Module Regex.
Import Js.

Inductive regex : Type :=
| Empty
| Char (p : ascii -> bool)
| Seq (a b : regex)
| Alt (a b : regex)
| Star (greedy : bool) (a : regex)
| Group (n : nat) (a : regex)
| EndOfInput
| WordBoundary.

(** A position in the subject: the text already passed (latest character
    first), the text ahead, and the captures made so far. *)
Record mstate : Type := MState {
  behind : jsstring;
  ahead : jsstring;
  caps : list (nat * jsstring)
}.

Definition cont := mstate -> option mstate.

Definition set_cap (n : nat) (v : jsstring) (s : mstate) : mstate :=
  MState (behind s) (ahead s) ((n, v) :: caps s).

Fixpoint get_cap (n : nat) (cs : list (nat * jsstring)) : option jsstring :=
  match cs with
  | [] => None
  | (i, v) :: cs' => if Nat.eqb i n then Some v else get_cap n cs'
  end.

Definition word_before (s : mstate) : bool :=
  match behind s with c :: _ => is_word c | [] => false end.

Definition word_after (s : mstate) : bool :=
  match ahead s with c :: _ => is_word c | [] => false end.

(** The repeat matcher.  An iteration that consumes nothing is rejected, so
    [fuel], the length of the text ahead on entry, is never exhausted
    before the text is. *)
Fixpoint star_loop (body : mstate -> cont -> option mstate) (greedy : bool)
    (k : cont) (fuel : nat) (s : mstate) : option mstate :=
  match fuel with
  | O => k s
  | S fuel' =>
      let again (_ : unit) :=
        body s (fun s' =>
                  if length (ahead s') <? length (ahead s)
                  then star_loop body greedy k fuel' s'
                  else None) in
      if greedy
      then match again tt with Some r => Some r | None => k s end
      else match k s with Some r => Some r | None => again tt end
  end.

Fixpoint run (r : regex) (s : mstate) (k : cont) : option mstate :=
  match r with
  | Empty => k s
  | Char p =>
      match ahead s with
      | c :: tl => if p c then k (MState (c :: behind s) tl (caps s)) else None
      | [] => None
      end
  | Seq a b => run a s (fun s' => run b s' k)
  | Alt a b =>
      match run a s k with
      | Some r => Some r
      | None => run b s k
      end
  | Star greedy a => star_loop (run a) greedy k (length (ahead s)) s
  | Group n a =>
      run a s (fun s' =>
        k (set_cap n (firstn (length (ahead s) - length (ahead s')) (ahead s)) s'))
  | EndOfInput =>
      match ahead s with [] => k s | _ :: _ => None end
  | WordBoundary =>
      if xorb (word_before s) (word_after s) then k s else None
  end.

(** Result of a successful match: the text before it, the matched text, the
    text after it, and the captures. *)
Record match_result : Type := MatchResult {
  m_before : jsstring;
  m_text : jsstring;
  m_after : jsstring;
  m_caps : list (nat * jsstring)
}.

(** One attempt at the position [(behind, ahead)]. *)
Definition match_here (r : regex) (bh ah : jsstring) : option match_result :=
  match run r (MState bh ah []) Some with
  | Some s' =>
      Some (MatchResult (rev bh)
              (firstn (length ah - length (ahead s')) ah)
              (ahead s') (caps s'))
  | None => None
  end.

(** [RegExp.prototype.exec] from a position on: the first start position
    at which the pattern matches, the end of the text included. *)
Fixpoint exec_from (r : regex) (bh ah : jsstring) : option match_result :=
  match match_here r bh ah with
  | Some m => Some m
  | None =>
      match ah with
      | [] => None
      | c :: ah' => exec_from r (c :: bh) ah'
      end
  end.

(** [text.match(r)] for a pattern without the [g] flag. *)
Definition exec (r : regex) (text : jsstring) : option match_result :=
  exec_from r [] text.

(** [m[n]]: the capture, [None] for [undefined]. *)
Definition group (n : nat) (m : match_result) : option jsstring :=
  get_cap n (m_caps m).

(** [Array.from(text.matchAll(r))] for a pattern with the [g] flag: the
    successive matches, each search starting where the previous match
    ended (one further after an empty match). *)
Fixpoint matchAll_from (r : regex) (fuel : nat) (bh ah : jsstring)
  : list match_result :=
  match fuel with
  | O => []
  | S fuel' =>
      match exec_from r bh ah with
      | None => []
      | Some m =>
          let bh' := rev (m_text m) ++ rev (m_before m) in
          m :: match m_text m, m_after m with
               | [], [] => []
               | [], c :: tl => matchAll_from r fuel' (c :: bh') tl
               | _ :: _, tl => matchAll_from r fuel' bh' tl
               end
      end
  end.

Definition matchAll (r : regex) (text : jsstring) : list match_result :=
  matchAll_from r (S (length text)) [] text.

(** [text.replace(r, '')] for a pattern with the [g] flag: every match is
    cut out. *)
Fixpoint remove_all_from (r : regex) (fuel : nat) (bh ah : jsstring) : jsstring :=
  match fuel with
  | O => ah
  | S fuel' =>
      match match_here r bh ah with
      | Some m =>
          match m_text m, ah with
          | [], [] => []
          | [], c :: tl => c :: remove_all_from r fuel' (c :: bh) tl
          | _ :: _, _ =>
              remove_all_from r fuel' (rev (m_text m) ++ bh) (m_after m)
          end
      | None =>
          match ah with
          | [] => []
          | c :: tl => c :: remove_all_from r fuel' (c :: bh) tl
          end
      end
  end.

Definition remove_all (r : regex) (text : jsstring) : jsstring :=
  remove_all_from r (S (length text)) [] text.

(** *** Pattern syntax *)

Definition Plus (greedy : bool) (a : regex) : regex := Seq a (Star greedy a).

(** [a?] *)
Definition Opt (a : regex) : regex := Alt a Empty.

(** One character, exactly. *)
Definition Lit (c : ascii) : regex := Char (ascii_eqb c).

(** One character under the [i] flag. *)
Definition LitI (c : ascii) : regex :=
  Char (fun x => ascii_eqb (lower_char x) (lower_char c)).

Fixpoint seq_of (l : list regex) : regex :=
  match l with
  | [] => Empty
  | [a] => a
  | a :: l' => Seq a (seq_of l')
  end.

Fixpoint alt_of (l : list regex) : regex :=
  match l with
  | [] => Empty
  | [a] => a
  | a :: l' => Alt a (alt_of l')
  end.

(** A literal word under the [i] flag. *)
Definition WordI (w : string) : regex := seq_of (map LitI (str w)).

Definition Digit : regex := Char is_digit.
Definition Space : regex := Char is_space.

End Regex.

(* ===================================================================== *)
(** ** The transaction extractor: [parseTransactionFromText] *)
(* ===================================================================== *)

Module Extractor.
Import Js Regex.

Record ParsedTransaction : Type := {
  amount : number;
  vendor : jsstring;
  category : jsstring;
  rawText : jsstring;
  parseConfidence : number
}.

(** *** Amount *)

(** [/\$?(\d+(?:\.\d{1,2})?)/g] *)
Definition dollarRegex : regex :=
  Seq (Opt (Lit "$"))
      (Group 1 (Seq (Plus true Digit)
                    (Opt (Seq (Lit ".") (Seq Digit (Opt Digit)))))).

Definition spaces : regex := Star true Space.
Definition digits (n : nat) : regex := Group n (Plus true Digit).
Definition plural (w : string) : regex := Seq (WordI w) (Opt (LitI "s")).

(** The five patterns of [amountPatterns], all under the [i] flag (the
    comments give them with blanks between the pieces). *)
Definition amountPatterns : list regex :=
  [ (* (\d+) \s* (?:dollars?|bucks?|euro?s?) \s* (?: and \s* )? (\d+)? \s* (?:cents?)? *)
    seq_of [digits 1; spaces;
            alt_of [plural "dollar"; plural "buck";
                    seq_of [WordI "eur"; Opt (LitI "o"); Opt (LitI "s")]];
            spaces; Opt (Seq (WordI "and") spaces); Opt (digits 2); spaces;
            Opt (plural "cent")];
    (* (\d+) \s* (?: and \s* )? (\d+) \s* (?:cents?)? *)
    seq_of [digits 1; spaces; Opt (Seq (WordI "and") spaces); digits 2; spaces;
            Opt (plural "cent")];
    (* (\d+) \s* (?:point|dot) \s* (\d+) *)
    seq_of [digits 1; spaces; alt_of [WordI "point"; WordI "dot"]; spaces;
            digits 2];
    (* (\d+) \s* fifty *)
    seq_of [digits 1; spaces; WordI "fifty"];
    (* (\d+) \s* twenty \s* five *)
    seq_of [digits 1; spaces; WordI "twenty"; spaces; WordI "five"] ].

(** [parseInt(m[n]) || 0] *)
Definition int_group (n : nat) (m : match_result) : number :=
  or_zero (match group n m with Some s => parseInt s | None => NaN end).

(** The loop over [amountPatterns]: the first pattern that matches sets the
    amount and breaks; the amount stays 0 otherwise. *)
Fixpoint amount_from_patterns (ps : list regex) (text : jsstring) : number :=
  match ps with
  | [] => Num 0%Q
  | p :: ps' =>
      match exec p text with
      | Some m =>
          num_add (int_group 1 m) (num_div (int_group 2 m) (Num 100%Q))
      | None => amount_from_patterns ps' text
      end
  end.

Definition extract_amount (text : jsstring) : number :=
  match matchAll dollarRegex text with
  | m0 :: _ =>
      match group 1 m0 with Some s => parseFloat s | None => NaN end
  | [] => amount_from_patterns amountPatterns text
  end.

(** *** Vendor *)

(** [[A-Za-z\s&']] *)
Definition NameChar : regex :=
  Char (fun c => is_alpha c || is_space c || ascii_eqb c "&" || ascii_eqb c "'").

(** [(?:\s+(?:for|on|in|today|yesterday|this|last)|\.|$)] *)
Definition vendorStop : regex :=
  alt_of [Seq (Plus true Space)
              (alt_of [WordI "for"; WordI "on"; WordI "in"; WordI "today";
                       WordI "yesterday"; WordI "this"; WordI "last"]);
          Lit "."; EndOfInput].

Definition vendorPatterns : list regex :=
  [ (* (?:at|from|to) \s+ ([A-Za-z\s&']+?) vendorStop, flag i *)
    seq_of [alt_of [WordI "at"; WordI "from"; WordI "to"]; Plus true Space;
            Group 1 (Plus false NameChar); vendorStop];
    (* (?:paid|spending|spent) \s+ (?:at|to) \s+ ([A-Za-z\s&']+?) vendorStop, flag i *)
    seq_of [alt_of [WordI "paid"; WordI "spending"; WordI "spent"];
            Plus true Space; alt_of [WordI "at"; WordI "to"]; Plus true Space;
            Group 1 (Plus false NameChar); vendorStop];
    (* ([A-Za-z\s&']+?) \s+ (?:store|restaurant|cafe|shop|market|gas station), flag i *)
    seq_of [Group 1 (Plus false NameChar); Plus true Space;
            alt_of [WordI "store"; WordI "restaurant"; WordI "cafe";
                    WordI "shop"; WordI "market"; WordI "gas station"]] ].

(** [/\b(the|a|an)\b/gi] *)
Definition articleRegex : regex :=
  seq_of [WordBoundary; Group 1 (alt_of [WordI "the"; WordI "a"; WordI "an"]);
          WordBoundary].

(** [match[1].trim()] followed by [.replace(/\b(the|a|an)\b/gi, '').trim()] *)
Definition clean_vendor (g : jsstring) : jsstring :=
  trim (remove_all articleRegex (trim g)).

(** The loop over [vendorPatterns].  [vendor] is the variable of the source:
    a pattern with a non-empty capture overwrites it, and the loop breaks
    only when the cleaned capture is longer than 2. *)
Fixpoint vendor_loop (ps : list regex) (text : jsstring) (vendor : jsstring)
  : jsstring :=
  match ps with
  | [] => vendor
  | p :: ps' =>
      match exec p text with
      | Some m =>
          match group 1 m with
          | Some (c :: g) =>
              let v := clean_vendor (c :: g) in
              if 2 <? length v then v else vendor_loop ps' text v
          | _ => vendor_loop ps' text vendor
          end
      | None => vendor_loop ps' text vendor
      end
  end.

Definition extract_vendor (text : jsstring) : jsstring :=
  vendor_loop vendorPatterns text (str "Unknown").

(** *** Category *)

Definition Food_keywords : list jsstring := map str
  ["food"; "restaurant"; "cafe"; "coffee"; "lunch"; "dinner"; "breakfast";
   "brunch"; "chicken rice"; "laksa"; "bak kut teh"; "char kway teow";
   "roti prata"; "mee goreng"; "satay"; "rojak"; "carrot cake";
   "oyster omelette"; "hokkien mee"; "nasi lemak"; "dim sum";
   "wonton noodles"; "fish ball noodles"; "kaya toast"; "soft boiled eggs";
   "toast box"; "ya kun"; "kopitiam"; "food republic"; "food junction";
   "food court"; "hawker centre"; "hawker center"; "coffee shop"; "zi char";
   "economy rice"; "kopi"; "teh"; "milo"; "bubble tea"; "fresh juice";
   "sugar cane"; "starbucks"; "costa coffee"; "the coffee bean"; "dunkin";
   "mcdonalds"; "kfc"; "burger king"; "pizza hut"; "dominos"; "subway";
   "yoshinoya"; "mos burger"; "old chang kee"; "breadtalk"; "four fingers";
   "long john silvers"; "eat"; "meal"; "snack"; "drink"; "food delivery";
   "takeaway"; "dine in"]%string.

Definition Transport_keywords : list jsstring := map str
  ["mrt"; "bus"; "lrt"; "ez-link"; "simplygo"; "smrt"; "sbs transit";
   "public transport"; "train"; "metro"; "transport"; "fare"; "top up";
   "card"; "grab"; "gojek"; "comfort delgro"; "comfort"; "tada"; "ryde";
   "taxi"; "private hire"; "ride"; "transport"; "car rental"; "car sharing";
   "parking"; "hdb parking"; "mall parking"; "street parking";
   "season parking"; "erp"; "electronic road pricing"; "coe"; "road tax";
   "vehicle inspection"; "petrol"; "diesel"; "fuel"; "esso"; "shell"; "spc";
   "caltex"; "mobil"; "car wash"; "oil change"; "repair"; "mechanic";
   "workshop"; "service"]%string.

Definition Shopping_keywords : list jsstring := map str
  ["orchard road"; "ion orchard"; "ngee ann city"; "plaza singapura";
   "bugis junction"; "vivocity"; "marina bay sands"; "citylink mall";
   "raffles city"; "suntec city"; "causeway point"; "jurong point";
   "tampines mall"; "bedok mall"; "westgate"; "shopping"; "mall"; "store";
   "retail"; "ntuc fairprice"; "giant"; "cold storage"; "sheng siong";
   "prime supermarket"; "mustafa centre"; "popular bookstore";
   "times bookstore"; "kinokuniya"; "challenger"; "courts"; "harvey norman";
   "best denki"; "gain city"; "audio house"; "apple store"; "samsung";
   "electronics"; "gadgets"; "phone"; "laptop"; "uniqlo"; "h&m"; "zara";
   "cotton on"; "charles & keith"; "pedro"; "love bonito"; "clothes";
   "clothing"; "shoes"; "bags"; "accessories"; "fashion"; "shopee"; "lazada";
   "amazon"; "qoo10"; "carousell"; "online shopping"]%string.

Definition Entertainment_keywords : list jsstring := map str
  ["cinema"; "movie"; "golden village"; "cathay cineplexes"; "shaw theatres";
   "theater"; "theatre"; "esplanade"; "concert"; "show"; "performance";
   "universal studios"; "adventure cove"; "sea aquarium"; "zoo"; "bird park";
   "gardens by the bay"; "art museum"; "science centre"; "arcade";
   "timezone"; "virtual reality"; "escape room"; "bowling"; "karaoke"; "ktv";
   "pool"; "billiards"; "gym"; "fitness"; "swimming"; "sports"; "netflix";
   "disney plus"; "amazon prime"; "spotify"; "youtube premium";
   "apple music"; "subscription"; "digital"; "entertainment"]%string.

Definition Utilities_keywords : list jsstring := map str
  ["sp group"; "sp services"; "electricity"; "electric"; "power";
   "utility bill"; "pub"; "water"; "water bill"; "conservancy";
   "town council"; "s&cc"; "singtel"; "starhub"; "m1"; "circles life";
   "phone bill"; "mobile plan"; "internet"; "wifi"; "broadband"; "fibre";
   "data plan"; "roaming"; "insurance"; "medisave"; "cpf"; "government";
   "iras"; "tax"; "fine"; "license"; "permit"; "registration"; "renewal"]%string.

Definition Health_keywords : list jsstring := map str
  ["doctor"; "clinic"; "polyclinic"; "hospital"; "specialist"; "dentist";
   "dental"; "medical"; "health"; "checkup"; "consultation"; "treatment";
   "medicine"; "pharmacy"; "guardian"; "watsons"; "unity pharmacy";
   "prescription"; "tcm"; "traditional chinese medicine"; "acupuncture";
   "physiotherapy"; "health screening"; "vaccination"; "covid test";
   "medical insurance"]%string.

Definition Groceries_keywords : list jsstring := map str
  ["ntuc fairprice"; "giant"; "cold storage"; "sheng siong";
   "prime supermarket"; "marketplace"; "finest"; "jason deli"; "meidi-ya";
   "don don donki"; "grocery"; "groceries"; "supermarket"; "hypermarket";
   "provisions"; "wet market"; "market"; "pasar"; "fresh market";
   "morning market"; "tekka market"; "chinatown market"; "geylang market";
   "vegetables"; "fruits"; "meat"; "seafood"; "dairy"; "bread"; "eggs";
   "rice"; "noodles"; "canned food"; "frozen food"; "household items"]%string.

Definition Home_keywords : list jsstring := map str
  ["ikea"; "courts"; "harvey norman"; "gain city"; "home improvement";
   "furniture"; "appliances"; "electronics"; "renovation"; "interior design";
   "rent"; "rental"; "mortgage"; "property"; "hdb"; "condo"; "landed";
   "utility deposit"; "agent fee"; "stamp duty"; "valuation";
   "aircon service"; "plumber"; "electrician"; "handyman";
   "cleaning service"; "pest control"; "locksmith"; "repair"; "maintenance";
   "contractor"; "detergent"; "toilet paper"; "tissue"; "soap"; "shampoo";
   "toothpaste"; "cleaning supplies"; "light bulbs"; "batteries"; "tools";
   "hardware"]%string.

(** [Object.entries(categoryKeywords)]: string keys, so insertion order. *)
Definition categoryKeywords : list (jsstring * list jsstring) :=
  [ (str "Food", Food_keywords);
    (str "Transport", Transport_keywords);
    (str "Shopping", Shopping_keywords);
    (str "Entertainment", Entertainment_keywords);
    (str "Utilities", Utilities_keywords);
    (str "Health", Health_keywords);
    (str "Groceries", Groceries_keywords);
    (str "Home", Home_keywords) ].

(** [keywords.filter(keyword => lowerText.includes(keyword)).length] *)
Definition count_matches (lowerText : jsstring) (keywords : list jsstring) : nat :=
  length (filter (fun keyword => includes lowerText keyword) keywords).

(** The loop over the entries, on the pair [(bestCategory, maxMatches)]. *)
Fixpoint best_loop (entries : list (jsstring * list jsstring))
    (lowerText : jsstring) (bestCategory : jsstring) (maxMatches : nat)
  : jsstring * nat :=
  match entries with
  | [] => (bestCategory, maxMatches)
  | (cat, keywords) :: entries' =>
      let matches := count_matches lowerText keywords in
      if maxMatches <? matches
      then best_loop entries' lowerText cat matches
      else best_loop entries' lowerText bestCategory maxMatches
  end.

Definition classify (entries : list (jsstring * list jsstring))
    (lowerText : jsstring) : jsstring :=
  let (bestCategory, maxMatches) := best_loop entries lowerText (str "Other") 0 in
  if 0 <? maxMatches then bestCategory else str "Other".

Definition extract_category (text : jsstring) : jsstring :=
  classify categoryKeywords (toLowerCase text).

(** *** Confidence and result *)

Definition bump (cond : bool) (by_ : Q) (confidence : number) : number :=
  if cond then num_add confidence (Num by_) else confidence.

Definition score (amount : number) (vendor category : jsstring) : number :=
  let confidence := Num (5 # 10)%Q in
  let confidence := bump (num_gt amount (Num 0%Q)) (3 # 10)%Q confidence in
  let confidence := bump (negb (jsstring_eqb vendor (str "Unknown"))) (2 # 10)%Q confidence in
  let confidence := bump (negb (jsstring_eqb category (str "Other"))) (2 # 10)%Q confidence in
  confidence.

Definition parseTransactionFromText (text : jsstring) : ParsedTransaction :=
  let amount := extract_amount text in
  let vendor := extract_vendor text in
  let category := extract_category text in
  let confidence := score amount vendor category in
  {| amount := num_div (Math_round (num_mul amount (Num 100%Q))) (Num 100%Q);
     vendor := if 30 <? length vendor
               then substring0 30 vendor ++ str "..."
               else vendor;
     category := category;
     rawText := text;
     parseConfidence := Math_min confidence (Num 1%Q) |}.

End Extractor.

(* ===================================================================== *)
(** ** The transcription endpoint: [POST] *)
(* ===================================================================== *)

Module Endpoint.
Import Js Extractor.

(** Completion of a fallible step: a value, or a thrown exception. *)
Inductive outcome (A : Type) : Type :=
| Ok (a : A)
| Throw (e : jsstring).

Arguments Ok {A} a.
Arguments Throw {A} e.

Definition bind {A B : Type} (m : outcome A) (f : A -> outcome B) : outcome B :=
  match m with
  | Ok a => f a
  | Throw e => Throw e
  end.

Notation "x <- m ;; k" := (bind m (fun x => k))
  (at level 61, m at next level, right associativity).

(** [try { body } catch (e) { handler }], every branch returning. *)
Definition try_catch {A : Type} (body : outcome A) (handler : jsstring -> A) : A :=
  match body with
  | Ok a => a
  | Throw e => handler e
  end.

(** [result.results?.channels[0]?.alternatives[0]], as far as the handler
    reads it. *)
Record Alternative : Type := {
  alt_transcript : option jsstring;
  alt_confidence : option number
}.

(** What [deepgram.listen.prerecorded.transcribeFile] comes back with. *)
Inductive DeepgramReply : Type :=
| DgThrows (e : jsstring)
    (** the awaited call rejects, or reading its result throws *)
| DgError (e : jsstring)
    (** [{ result: null, error }] *)
| DgResult (alternative : option Alternative).
    (** [{ result, error: null }]; [None] when the optional chain is
        [undefined] *)

(** Everything the handler reads from outside. *)
Record Env : Type := {
  formData : outcome (option unit);
    (** [await request.formData()] then [.get('audio')]; [None] for no file *)
  hasApiKey : bool;
  random : nat;
    (** [Math.floor(Math.random() * demoTranscripts.length)] *)
  arrayBuffer : outcome unit;
    (** [await audioFile.arrayBuffer()] *)
  deepgram : DeepgramReply
}.

Inductive Body : Type :=
| ErrorBody (error : jsstring)
| TranscriptBody (transcript : jsstring) (parsed : ParsedTransaction)
    (confidence : number) (demoMode : option bool).

Record Response : Type := { status : nat; body : Body }.

(** [NextResponse.json(body)]: status 200 unless given. *)
Definition json (b : Body) : Response := {| status := 200; body := b |}.
Definition json_status (b : Body) (st : nat) : Response :=
  {| status := st; body := b |}.

Definition demoTranscripts : list jsstring := map str
  ["I spent twelve dollars on chicken rice at Maxwell Food Centre";
   "Bought bubble tea for five dollars at Gong Cha";
   "MRT fare two dollars and fifty cents";
   "Bought coffee at Starbucks for four dollars and fifty cents";
   "McDonald's meal cost eight dollars and ninety five cents";
   "Uber ride to downtown fifteen dollars";
   "Grocery shopping at the supermarket thirty two dollars";
   "Gas station fill up forty five dollars";
   "Restaurant dinner twenty eight dollars";
   "Online shopping on Amazon eighteen dollars and ninety nine cents"]%string.

Definition fallbackTranscript : jsstring := str "Demo: I spent ten dollars on food".
Definition errorTranscript : jsstring := str "Demo: Unable to process audio".

(** The three locally generated responses. *)
Definition demo_response (randomTranscript : jsstring) : Response :=
  json (TranscriptBody randomTranscript
          (parseTransactionFromText randomTranscript)
          (Num (85 # 100)%Q) (Some true)).

Definition fallback_response : Response :=
  json (TranscriptBody fallbackTranscript
          (parseTransactionFromText fallbackTranscript)
          (Num (5 # 10)%Q) (Some true)).

Definition error_response : Response :=
  json (TranscriptBody errorTranscript
          (parseTransactionFromText errorTranscript)
          (Num (3 # 10)%Q) (Some true)).

(** The inner [try] block: the call to the backend and the reading of its
    result. *)
Definition transcribe (reply : DeepgramReply) : outcome Response :=
  match reply with
  | DgThrows e => Throw e
  | DgError _ => Throw (str "Deepgram transcription failed")
  | DgResult alternative =>
      let transcript :=
        match alternative with
        | Some a => alt_transcript a
        | None => None
        end in
      match transcript with
      | Some (c :: t) =>
          let confidence :=
            match alternative with
            | Some a =>
                match alt_confidence a with
                | Some x => or_zero x
                | None => Num 0%Q
                end
            | None => Num 0%Q
            end in
          Ok (json (TranscriptBody (c :: t) (parseTransactionFromText (c :: t))
                      confidence None))
      | _ => Throw (str "No transcript generated")
      end
  end.

Definition POST (env : Env) : Response :=
  try_catch
    (audioFile <- formData env ;;
     match audioFile with
     | None => Ok (json_status (ErrorBody (str "No audio file provided")) 400)
     | Some _ =>
         if negb (hasApiKey env)
         then
           match nth_error demoTranscripts (random env) with
           | Some randomTranscript => Ok (demo_response randomTranscript)
           | None => Throw (str "TypeError")
           end
         else
           _ <- arrayBuffer env ;;
           Ok (try_catch (transcribe (deepgram env))
                 (fun _ => fallback_response))
     end)
    (fun _ => error_response).

End Endpoint.

(* ===================================================================== *)
(** ** The transaction store *)
(* ===================================================================== *)

Module Store.
Import Js.

Record Transaction : Type := {
  id : jsstring;
  amount : number;
  vendor : jsstring;
  category : jsstring;
  timestamp : jsstring;
  rawText : jsstring;
  confidence : option number
}.

(** [Partial<Transaction>]: each own property of the object, when present.
    [confidence] may be present with the value [undefined]. *)
Record Updates : Type := {
  u_id : option jsstring;
  u_amount : option number;
  u_vendor : option jsstring;
  u_category : option jsstring;
  u_timestamp : option jsstring;
  u_rawText : option jsstring;
  u_confidence : option (option number)
}.

Definition override {A : Type} (old : A) (new : option A) : A :=
  match new with
  | Some v => v
  | None => old
  end.

(** [{ ...t, ...updates }] *)
Definition spread (t : Transaction) (updates : Updates) : Transaction :=
  {| id := override (id t) (u_id updates);
     amount := override (amount t) (u_amount updates);
     vendor := override (vendor t) (u_vendor updates);
     category := override (category t) (u_category updates);
     timestamp := override (timestamp t) (u_timestamp updates);
     rawText := override (rawText t) (u_rawText updates);
     confidence := override (confidence t) (u_confidence updates) |}.

Record State : Type := { transactions : list Transaction }.

Definition removeTransaction (id' : jsstring) (state : State) : State :=
  {| transactions :=
       filter (fun t => negb (jsstring_eqb (id t) id')) (transactions state) |}.

Definition updateTransaction (id' : jsstring) (updates : Updates)
    (state : State) : State :=
  {| transactions :=
       map (fun t => if jsstring_eqb (id t) id' then spread t updates else t)
           (transactions state) |}.

End Store.

(* ===================================================================== *)
(** ** The voice recorder: recording lifecycle *)
(* ===================================================================== *)

(** The component state that the lifecycle touches, the [MediaRecorder]
    objects it creates, the pending [setTimeout] callbacks and a logical
    clock.  Asynchronous callbacks are events that the environment
    delivers; a pending timeout is delivered exactly when it is due.  The
    level meter, the duration clock and the audio graph read the state but
    never write it or the timers, and are left out. *)

Module Recorder.
Import Js.

Inductive RecordingState : Type :=
| idle | recording | processing | completed | error.

Definition RecordingState_eqb (a b : RecordingState) : bool :=
  match a, b with
  | idle, idle | recording, recording | processing, processing
  | completed, completed | error, error => true
  | _, _ => false
  end.

(** [MediaRecorder.state]; ['paused'] is never entered. *)
Inductive RecorderState : Type := inactive | capturing.

(** An [ExtendedMediaRecorder] with what is in flight on its behalf. *)
Record MediaRecorder : Type := {
  mr_state : RecorderState;
  timeoutId : option nat;
  stop_queued : bool;      (** the stop event is dispatched, [onstop] not yet run *)
  request_sent : bool      (** [onstop] awaits its [fetch] *)
}.

Record World : Type := {
  state : RecordingState;
  transcript : jsstring;
  hasClip : bool;                     (** [audioBlob] and [audioURL] are set *)
  recorders : list MediaRecorder;     (** the recorder objects, by identity *)
  mediaRecorderRef : option nat;      (** [mediaRecorderRef.current] *)
  timers : list (nat * N);            (** pending timeouts: id and due time *)
  nextTimerId : nat;
  now : N;                            (** milliseconds *)
  errors : list jsstring;             (** [onError] calls, latest first *)
  transcriptions : list jsstring      (** [onTranscription] calls, latest first *)
}.

Definition initial : World :=
  {| state := idle; transcript := []; hasClip := false; recorders := [];
     mediaRecorderRef := None; timers := []; nextTimerId := 1; now := 0%N;
     errors := []; transcriptions := [] |}.

Definition set_state (st : RecordingState) (w : World) : World :=
  {| state := st; transcript := transcript w; hasClip := hasClip w;
     recorders := recorders w; mediaRecorderRef := mediaRecorderRef w;
     timers := timers w; nextTimerId := nextTimerId w; now := now w;
     errors := errors w; transcriptions := transcriptions w |}.

Definition set_recorders (rs : list MediaRecorder) (w : World) : World :=
  {| state := state w; transcript := transcript w; hasClip := hasClip w;
     recorders := rs; mediaRecorderRef := mediaRecorderRef w;
     timers := timers w; nextTimerId := nextTimerId w; now := now w;
     errors := errors w; transcriptions := transcriptions w |}.

Definition set_timers (ts : list (nat * N)) (w : World) : World :=
  {| state := state w; transcript := transcript w; hasClip := hasClip w;
     recorders := recorders w; mediaRecorderRef := mediaRecorderRef w;
     timers := ts; nextTimerId := nextTimerId w; now := now w;
     errors := errors w; transcriptions := transcriptions w |}.

(** [onError?.(msg)] *)
Definition onError (msg : jsstring) (w : World) : World :=
  {| state := state w; transcript := transcript w; hasClip := hasClip w;
     recorders := recorders w; mediaRecorderRef := mediaRecorderRef w;
     timers := timers w; nextTimerId := nextTimerId w; now := now w;
     errors := msg :: errors w; transcriptions := transcriptions w |}.

(** Update of the recorder object [r] in place. *)
Fixpoint modify (r : nat) (f : MediaRecorder -> MediaRecorder)
    (rs : list MediaRecorder) : list MediaRecorder :=
  match rs, r with
  | [], _ => []
  | x :: rs', O => f x :: rs'
  | x :: rs', S r' => x :: modify r' f rs'
  end.

Definition modify_recorder (r : nat) (f : MediaRecorder -> MediaRecorder)
    (w : World) : World :=
  set_recorders (modify r f (recorders w)) w.

(** [clearTimeout(id)] *)
Definition clearTimeout (id : nat) (w : World) : World :=
  set_timers (filter (fun t => negb (fst t =? id)) (timers w)) w.

Definition timer_due (id : nat) (w : World) : option N :=
  match find (fun t => fst t =? id) (timers w) with
  | Some t => Some (snd t)
  | None => None
  end.

(** [startRecording], once [getUserMedia] has resolved: a new recorder is
    created, referenced and started. *)
Definition startRecording_granted (w : World) : World :=
  let mediaRecorder :=
    {| mr_state := capturing; timeoutId := None; stop_queued := false;
       request_sent := false |} in
  {| state := recording; transcript := transcript w; hasClip := hasClip w;
     recorders := recorders w ++ [mediaRecorder];
     mediaRecorderRef := Some (length (recorders w));
     timers := timers w; nextTimerId := nextTimerId w; now := now w;
     errors := errors w; transcriptions := transcriptions w |}.

(** [startRecording], when the [try] block throws: the [catch] branch. *)
Definition startRecording_denied (msg : jsstring) (w : World) : World :=
  onError msg (set_state error w).

Definition failsafe_delay : N := 5000%N.

(** [stopRecording].  The state is set to ['processing'] without a look at
    the current one; the recorder is stopped when it is recording; a new
    timeout is armed, and its id is stored on the current recorder, if
    any, over the previous one. *)
Definition stopRecording (w : World) : World :=
  let w := set_state processing w in
  let w :=
    match mediaRecorderRef w with
    | Some r =>
        modify_recorder r
          (fun m =>
             match mr_state m with
             | capturing =>
                 {| mr_state := inactive; timeoutId := timeoutId m;
                    stop_queued := true; request_sent := request_sent m |}
             | inactive => m
             end) w
    | None => w
    end in
  let id := nextTimerId w in
  let w :=
    {| state := state w; transcript := transcript w; hasClip := hasClip w;
       recorders := recorders w; mediaRecorderRef := mediaRecorderRef w;
       timers := timers w ++ [(id, (now w + failsafe_delay)%N)];
       nextTimerId := S id; now := now w;
       errors := errors w; transcriptions := transcriptions w |} in
  match mediaRecorderRef w with
  | Some r =>
      modify_recorder r
        (fun m =>
           {| mr_state := mr_state m; timeoutId := Some id;
              stop_queued := stop_queued m; request_sent := request_sent m |}) w
  | None => w
  end.

(** The callback given to [setTimeout]. *)
Definition failsafe (w : World) : World :=
  match state w with
  | processing =>
      set_state error (onError (str "Recording timeout - please try again") w)
  | _ => w
  end.

(** [mediaRecorder.onstop] of the recorder [r], up to its [await]: the
    timeout stored on [r] is cleared, the clip is kept, the request goes
    out. *)
Definition onstop (r : nat) (w : World) : World :=
  let w :=
    match nth_error (recorders w) r with
    | Some m =>
        match timeoutId m with
        | Some id => clearTimeout id w
        | None => w
        end
    | None => w
    end in
  let w :=
    {| state := state w; transcript := transcript w; hasClip := true;
       recorders := recorders w; mediaRecorderRef := mediaRecorderRef w;
       timers := timers w; nextTimerId := nextTimerId w; now := now w;
       errors := errors w; transcriptions := transcriptions w |} in
  modify_recorder r
    (fun m =>
       {| mr_state := mr_state m; timeoutId := timeoutId m;
          stop_queued := false; request_sent := true |}) w.

(** The rest of [onstop], after the [await]: [inl transcript] for a
    response that is ok, [inr message] for the [catch] branch. *)
Definition onstop_resume (r : nat) (reply : jsstring + jsstring) (w : World)
  : World :=
  let w :=
    modify_recorder r
      (fun m =>
         {| mr_state := mr_state m; timeoutId := timeoutId m;
            stop_queued := stop_queued m; request_sent := false |}) w in
  match reply with
  | inl t =>
      {| state := completed; transcript := t; hasClip := hasClip w;
         recorders := recorders w; mediaRecorderRef := mediaRecorderRef w;
         timers := timers w; nextTimerId := nextTimerId w; now := now w;
         errors := errors w; transcriptions := t :: transcriptions w |}
  | inr msg => onError msg (set_state error w)
  end.

(** [resetRecording] *)
Definition resetRecording (w : World) : World :=
  let w :=
    {| state := idle; transcript := []; hasClip := false;
       recorders := recorders w; mediaRecorderRef := mediaRecorderRef w;
       timers := timers w; nextTimerId := nextTimerId w; now := now w;
       errors := errors w; transcriptions := transcriptions w |} in
  match mediaRecorderRef w with
  | Some r =>
      match nth_error (recorders w) r with
      | Some m =>
          match timeoutId m with
          | Some id =>
              modify_recorder r
                (fun m =>
                   {| mr_state := mr_state m; timeoutId := None;
                      stop_queued := stop_queued m;
                      request_sent := request_sent m |})
                (clearTimeout id w)
          | None => w
          end
      | None => w
      end
  | None => w
  end.

(** What the environment can do. *)
Inductive Event : Type :=
| StartGranted                    (** [startRecording()], microphone granted *)
| StartDenied (msg : jsstring)    (** [startRecording()], acquisition throws *)
| Stop                            (** [stopRecording()] *)
| ResetClicked                    (** [resetRecording()] *)
| StopEvent (r : nat)             (** the stop event of recorder [r] arrives *)
| Reply (r : nat) (reply : jsstring + jsstring)
                                  (** the request of recorder [r] settles *)
| Timeout (id : nat)              (** the timeout [id] runs *)
| Elapse (ms : N).                (** time passes *)

Definition recorder_has (p : MediaRecorder -> bool) (r : nat) (w : World) : bool :=
  match nth_error (recorders w) r with
  | Some m => p m
  | None => false
  end.

Definition advance (ms : N) (w : World) : World :=
  {| state := state w; transcript := transcript w; hasClip := hasClip w;
     recorders := recorders w; mediaRecorderRef := mediaRecorderRef w;
     timers := timers w; nextTimerId := nextTimerId w; now := (now w + ms)%N;
     errors := errors w; transcriptions := transcriptions w |}.

(** One event; [None] when the event cannot happen in [w].  A timeout runs
    when it is due, and time does not pass a pending timeout. *)
Definition step (w : World) (e : Event) : option World :=
  match e with
  | StartGranted => Some (startRecording_granted w)
  | StartDenied msg => Some (startRecording_denied msg w)
  | Stop => Some (stopRecording w)
  | ResetClicked => Some (resetRecording w)
  | StopEvent r =>
      if recorder_has stop_queued r w then Some (onstop r w) else None
  | Reply r reply =>
      if recorder_has request_sent r w then Some (onstop_resume r reply w)
      else None
  | Timeout id =>
      match timer_due id w with
      | Some due =>
          if (due <=? now w)%N then Some (failsafe (clearTimeout id w)) else None
      | None => None
      end
  | Elapse ms =>
      if forallb (fun t => (now w + ms <=? snd t)%N) (timers w)
      then Some (advance ms w)
      else None
  end.

Fixpoint steps (w : World) (es : list Event) : option World :=
  match es with
  | [] => Some w
  | e :: es' =>
      match step w e with
      | Some w' => steps w' es'
      | None => None
      end
  end.


End Recorder.

(* ===================================================================== *)
(** ** The specification's vocabulary *)
(* ===================================================================== *)

Module Spec.
Import Js.

Definition all_digits (s : jsstring) : Prop := Forall (fun c => is_digit c = true) s.
Definition no_digit (s : jsstring) : Prop := Forall (fun c => is_digit c = false) s.




(** Rounding to two decimal places, halves upwards. *)
Definition round2 (v : Q) : Q :=
  (inject_Z (Qfloor (v * 100 + (1 # 2))) / 100)%Q.


(** What one vendor pattern yields: its capture, trimmed and without
    articles, when that is longer than 2 characters. *)
Definition nontrivial_match (p : Regex.regex) (text : jsstring) : option jsstring :=
  match Regex.exec p text with
  | Some m =>
      match Regex.group 1 m with
      | Some g =>
          if 2 <? length (Extractor.clean_vendor g)
          then Some (Extractor.clean_vendor g)
          else None
      | None => None
      end
  | None => None
  end.

(** The vendor the specification gives: the yield of the first pattern, in
    order, that has one; "Unknown" when none has. *)
Fixpoint spec_vendor (ps : list Regex.regex) (text : jsstring) : jsstring :=
  match ps with
  | [] => str "Unknown"
  | p :: ps' =>
      match nontrivial_match p text with
      | Some v => v
      | None => spec_vendor ps' text
      end
  end.

(** The transcription backend fails: the call throws, it reports an
    error, or its result carries no transcript. *)
Definition backend_fails (reply : Endpoint.DeepgramReply) : Prop :=
  match reply with
  | Endpoint.DgThrows _ => True
  | Endpoint.DgError _ => True
  | Endpoint.DgResult None => True
  | Endpoint.DgResult (Some a) =>
      Endpoint.alt_transcript a = None \/ Endpoint.alt_transcript a = Some []
  end.

(** A successful response that carries a locally generated transcript, the
    transaction parsed from it, and the demo flag. *)
Definition local_fallback (resp : Endpoint.Response) : Prop :=
  Endpoint.status resp = 200 /\
  exists t c,
    In t [Endpoint.fallbackTranscript; Endpoint.errorTranscript] /\
    Endpoint.body resp
    = Endpoint.TranscriptBody t (Extractor.parseTransactionFromText t) c (Some true).

(** *** The recorder claims of the specification, as stated *)







End Spec.

(* ===================================================================== *)
(** ** Vocabulary of the proofs *)
(* ===================================================================== *)

Module Shape.
Import Js Regex Spec.

Definition not_digit_first (s : jsstring) : Prop :=
  match s with
  | [] => True
  | c :: _ => is_digit c = false
  end.

(** A continuation that never fails. *)
Definition total (k : cont) : Prop := forall s, k s <> None.

(** [(?:\.\d{1,2})?] *)
Definition fractionRegex : regex := Opt (Seq (Lit ".") (Seq Digit (Opt Digit))).

(** [(\d+(?:\.\d{1,2})?)] *)
Definition amountBody : regex := Group 1 (Seq (Plus true Digit) fractionRegex).

(** The text that [fractionRegex] takes at the front of [tl]. *)
Definition take_fraction (tl : jsstring) : jsstring :=
  match tl with
  | p :: f1 :: tl1 =>
      if ascii_eqb "." p && is_digit f1
      then match tl1 with
           | f2 :: _ => if is_digit f2 then [p; f1; f2] else [p; f1]
           | [] => [p; f1]
           end
      else []
  | _ => []
  end.


Definition dollar_sign (dollar : bool) : jsstring := if dollar then ["$"%char] else [].

Definition ends_with_dollar (s : jsstring) : Prop := exists p, s = p ++ ["$"%char].

(** A pattern that cannot start anywhere but at a digit. *)
Definition needs_digit (r : regex) : Prop :=
  forall s k, not_digit_first (ahead s) -> run r s k = None.


End Shape.

(* ===================================================================== *)
(** ** The rest of the store *)
(* ===================================================================== *)

Module StoreOps.
Import Js Store.

(** [Omit<Transaction, 'id' | 'timestamp'>] *)
Record NewTransaction : Type := {
  n_amount : number;
  n_vendor : jsstring;
  n_category : jsstring;
  n_rawText : jsstring;
  n_confidence : option number
}.

(** [addTransaction]; [generatedId] is what [generateId()] returns and
    [nowISO] what [new Date().toISOString()] returns. *)
Definition addTransaction (transaction : NewTransaction)
    (generatedId nowISO : jsstring) (state : State) : State :=
  let newTransaction :=
    {| id := generatedId;
       amount := n_amount transaction;
       vendor := n_vendor transaction;
       category := n_category transaction;
       timestamp := nowISO;
       rawText := n_rawText transaction;
       confidence := n_confidence transaction |} in
  {| transactions := newTransaction :: transactions state |}.

Definition clearTransactions (state : State) : State := {| transactions := [] |}.

(** [list.reduce((total, t) => total + t.amount, 0)] *)
Definition sum_amounts (l : list Transaction) : number :=
  fold_left (fun total t => num_add total (amount t)) l (Num 0%Q).

Definition getTotalSpent (state : State) : number :=
  sum_amounts (transactions state).

(** A [Record<string, number>] built from [{}]: its own properties, in
    insertion order.  Only keys that [Object.prototype] does not define are
    read through it. *)
Definition record := list (jsstring * number).


(** [acc[key] = v] *)
Fixpoint set (key : jsstring) (v : number) (acc : record) : record :=
  match acc with
  | [] => [(key, v)]
  | (k, w) :: acc' =>
      if jsstring_eqb k key then (k, v) :: acc' else (k, w) :: set key v acc'
  end.


Section Dates.

(** The time value of [new Date(timestamp)], [None] for an invalid date. *)
Variable Date_value : jsstring -> option Z.




End Dates.

End StoreOps.

(* ===================================================================== *)
(** ** The edit modal: [handleSave] *)
(* ===================================================================== *)

Module Modal.
Import Js Store.

Definition categories : list jsstring := map str
  ["Food"; "Transport"; "Shopping"; "Entertainment"; "Utilities"; "Health";
   "Groceries"; "Home"; "Other"]%string.

(** [a <= b]; false as soon as one side is [NaN]. *)
Definition num_le (a b : number) : bool :=
  match a, b with
  | Num x, Num y => Qle_bool x y
  | _, _ => false
  end.

Definition isNaN (a : number) : bool :=
  match a with
  | NaN => true
  | Num _ => false
  end.

(** What [handleSave] does: an error message is shown, or [onSave] is
    called with the id and the updates. *)
Inductive SaveResult : Type :=
| Rejected (error : jsstring)
| Saved (id : jsstring) (updates : Updates).

(** [handleSave] on the fields of the form; [parsedAmount] is
    [parseFloat(amount)]. *)
Definition handleSave (transaction : Transaction) (parsedAmount : number)
    (vendor category : jsstring) : SaveResult :=
  if isNaN parsedAmount || num_le parsedAmount (Num 0%Q)
  then Rejected (str "Please enter a valid amount")
  else
    match trim vendor with
    | [] => Rejected (str "Please enter a vendor")
    | _ :: _ =>
        Saved (id transaction)
          {| u_id := None;
             u_amount := Some (num_div (Math_round (num_mul parsedAmount (Num 100%Q)))
                                       (Num 100%Q));
             u_vendor := Some (trim vendor);
             u_category := Some category;
             u_timestamp := None;
             u_rawText := None;
             u_confidence := None |}
    end.

(** The [onSave] of the page: [updateTransaction(id, updates)]. *)
Definition save (r : SaveResult) (state : State) : State :=
  match r with
  | Rejected _ => state
  | Saved id' updates => updateTransaction id' updates state
  end.

End Modal.

(* ===================================================================== *)
(** ** From a response of the endpoint to the store *)
(* ===================================================================== *)

Module Page.
Import Js Extractor Endpoint Store StoreOps.

(** The fields of [apiResponse] that [handleTranscription] reads; [None]
    for a missing property. *)
Record ApiResponse : Type := {
  r_transcript : option jsstring;
  r_amount : option number;
  r_vendor : option jsstring;
  r_category : option jsstring;
  r_confidence : option number
}.

(** [await response.json()] on what the endpoint has sent:
    [{ transcript, ...parsedTransaction, confidence, demoMode }] or
    [{ error }]. *)
Definition data_of (b : Body) : ApiResponse :=
  match b with
  | TranscriptBody transcript parsed confidence _ =>
      {| r_transcript := Some transcript;
         r_amount := Some (Extractor.amount parsed);
         r_vendor := Some (Extractor.vendor parsed);
         r_category := Some (Extractor.category parsed);
         r_confidence := Some confidence |}
  | ErrorBody _ =>
      {| r_transcript := None; r_amount := None; r_vendor := None;
         r_category := None; r_confidence := None |}
  end.

(** [s || d] on a string: [undefined] and the empty string are falsy. *)
Definition or_string (s : option jsstring) (d : jsstring) : jsstring :=
  match s with
  | Some (c :: s') => c :: s'
  | _ => d
  end.

Definition or_zero_opt (a : option number) : number :=
  match a with
  | Some x => or_zero x
  | None => Num 0%Q
  end.

(** [handleTranscription(transcript, audioBlob, apiResponse)]: the argument
    of its call of [addTransaction]. *)
Definition handleTranscription (transcript : jsstring)
    (apiResponse : option ApiResponse) : NewTransaction :=
  match apiResponse with
  | Some a =>
      {| n_amount := or_zero_opt (r_amount a);
         n_vendor := or_string (r_vendor a) (str "Unknown");
         n_category := or_string (r_category a) (str "Other");
         n_rawText := or_string (r_transcript a) transcript;
         n_confidence := Some (or_zero_opt (r_confidence a)) |}
  | None =>
      {| n_amount := Num 0%Q;
         n_vendor := str "Unknown";
         n_category := str "Other";
         n_rawText := transcript;
         n_confidence := Some (Num (5 # 10)%Q) |}
  end.

(** [response.ok] *)
Definition ok (resp : Response) : bool :=
  (200 <=? status resp) && (status resp <=? 299).

(** The end of [onstop] in the recorder, for a response of the endpoint:
    when the response is not ok the [catch] branch reports an error and
    nothing is stored; otherwise [onTranscription(data.transcript, blob,
    data)] reaches [handleTranscription] and [addTransaction]. *)
Definition record_expense (env : Env) (generatedId nowISO : jsstring)
    (state : State) : State :=
  let response := POST env in
  if ok response
  then
    let data := data_of (body response) in
    addTransaction
      (handleTranscription (or_string (r_transcript data) []) (Some data))
      generatedId nowISO state
  else state.

End Page.

(* ===================================================================== *)
(** ** The duration display of the recorder *)
(* ===================================================================== *)

Module Display.
Import Js.

(** [n.toString()] for a non-negative integer. *)
Definition toString (n : N) : jsstring :=
  list_ascii_of_string (NilZero.string_of_uint (N.to_uint n)).

(** [s.padStart(2, '0')] *)
Definition padStart2 (s : jsstring) : jsstring :=
  match s with
  | [] => ["0"; "0"]%char
  | [c] => ["0"%char; c]
  | _ => s
  end.

(** [formatDuration(seconds)] on the whole seconds that [duration] holds. *)
Definition formatDuration (seconds : N) : jsstring :=
  let mins := (seconds / 60)%N in
  let secs := (seconds mod 60)%N in
  toString mins ++ [":"%char] ++ padStart2 (toString secs).

End Display.

(* ===================================================================== *)
(** ** Vocabulary for the rest of the code *)
(* ===================================================================== *)

Module ExtraSpec.
Import Js.

(** No white space at either end. *)
Definition trimmed (s : jsstring) : Prop :=
  (forall c s', s = c :: s' -> is_space c = false) /\
  (forall s' c, s = s' ++ [c] -> is_space c = false).

End ExtraSpec.

(* ===================================================================== *)
(** ** Vocabulary for the store *)
(* ===================================================================== *)

Module StoreSpec.
Import Js Store StoreOps.

(** The amount as a rational; 0 where it is [NaN]. *)
Definition amount_q (t : Transaction) : Q :=
  match amount t with
  | Num q => q
  | NaN => 0%Q
  end.

(** The sum of the amounts, as a rational. *)
Definition exact_sum (l : list Transaction) : Q :=
  fold_right (fun t acc => (amount_q t + acc)%Q) 0%Q l.

(** No amount is [NaN]. *)
Definition numeric (l : list Transaction) : Prop :=
  Forall (fun t => amount t <> NaN) l.





Definition ids (state : State) : list jsstring := map id (transactions state).

End StoreSpec.

(* ===================================================================== *)
(** ** What the page does to the store *)
(* ===================================================================== *)

Module Ui.
Import Js Endpoint Store StoreOps Modal Page ExtraSpec StoreSpec.




End Ui.

(* ===================================================================== *)
(** ** Vocabulary for the traces of the recorder *)
(* ===================================================================== *)

Module RecorderSpec.
Import Js Recorder.

(** The events that a recorder object still has to go through: its stop,
    the delivery of its stop event, the reply to its request. *)
Definition pending (m : MediaRecorder) : nat :=
  (match mr_state m with capturing => 1 | inactive => 0 end)
  + (if stop_queued m then 1 else 0)
  + (if request_sent m then 1 else 0).

Definition pending_total (rs : list MediaRecorder) : nat :=
  fold_right (fun m n => pending m + n) 0 rs.

Definition is_start (e : Event) : bool :=
  match e with
  | StartGranted => true
  | _ => false
  end.

Definition is_ok_reply (e : Event) : bool :=
  match e with
  | Reply _ (inl _) => true
  | _ => false
  end.

(** The recordings started and the replies with a transcript in a trace. *)
Definition starts (es : list Event) : nat := length (filter is_start es).
Definition ok_replies (es : list Event) : nat := length (filter is_ok_reply es).



End RecorderSpec.

(* ===================================================================== *)
(** ** Reading a displayed duration *)
(* ===================================================================== *)

Module DisplaySpec.
Import Js.

(** The number that a decimal numeral denotes. *)
Definition ofString (s : jsstring) : option N :=
  option_map N.of_uint (NilZero.uint_of_string (string_of_list_ascii s)).

(** The text before and after the first colon. *)
Fixpoint split_colon (s : jsstring) : option (jsstring * jsstring) :=
  match s with
  | [] => None
  | c :: s' =>
      if ascii_eqb c ":"%char then Some ([], s')
      else
        match split_colon s' with
        | Some (a, b) => Some (c :: a, b)
        | None => None
        end
  end.

(** The seconds that "m:ss" stands for. *)
Definition readDuration (s : jsstring) : option N :=
  match split_colon s with
  | Some (m, ss) =>
      match ofString m, ofString ss with
      | Some a, Some b =>
          if (length ss =? 2) && (b <? 60)%N then Some (60 * a + b)%N else None
      | _, _ => None
      end
  | None => None
  end.

End DisplaySpec.

(* ===================================================================== *)
(** ** Facts about strings and numbers *)
(* ===================================================================== *)

Module JsFacts.
Import Js.

Lemma ascii_eqb_eq (a b : ascii) : ascii_eqb a b = true <-> a = b.
Proof. unfold ascii_eqb. apply Ascii.eqb_eq. Qed.

Lemma jsstring_eqb_eq (a b : jsstring) : jsstring_eqb a b = true <-> a = b.
Proof.
  revert b. induction a as [|x a IH]; intros [|y b]; simpl; split; intro H;
    try reflexivity; try discriminate.
  - apply andb_true_iff in H. destruct H as [Hxy Hab].
    apply ascii_eqb_eq in Hxy. apply IH in Hab. congruence.
  - injection H as -> ->. apply andb_true_iff. split.
    + now apply ascii_eqb_eq.
    + now apply IH.
Qed.

Lemma jsstring_eqb_neq (a b : jsstring) : jsstring_eqb a b = false <-> a <> b.
Proof.
  split.
  - intros H E. apply jsstring_eqb_eq in E. congruence.
  - intro H. destruct (jsstring_eqb a b) eqn:E; [|reflexivity].
    apply jsstring_eqb_eq in E. contradiction.
Qed.

Lemma starts_with_spec (p s : jsstring) :
  starts_with p s = true <-> exists b, s = p ++ b.
Proof.
  revert s. induction p as [|x p IH]; intros s; simpl.
  - split; [intros _; now exists s | reflexivity].
  - destruct s as [|y s].
    + split; [discriminate | intros [b Hb]; discriminate].
    + rewrite andb_true_iff, ascii_eqb_eq, IH. split.
      * intros [-> [b ->]]. now exists b.
      * intros [b Hb]. injection Hb as -> ->. split; [reflexivity | now exists b].
Qed.

(** [includes] is the substring test. *)
Lemma includes_spec (s p : jsstring) :
  includes s p = true <-> exists a b, s = a ++ p ++ b.
Proof.
  induction s as [|c s IH].
  - simpl. rewrite orb_false_r, starts_with_spec. split.
    + intros [b Hb]. now exists [], b.
    + intros [a [b Hab]]. destruct a; [now exists b | discriminate].
  - cbn [includes]. rewrite orb_true_iff, starts_with_spec, IH. split.
    + intros [[b Hb] | [a [b Hab]]].
      * now exists [], b.
      * exists (c :: a), b. simpl. now rewrite Hab.
    + intros [[|x a] [b Hab]].
      * left. now exists b.
      * right. injection Hab as -> ->. now exists a, b.
Qed.

End JsFacts.

(* ===================================================================== *)
(** ** Category classification *)
(* ===================================================================== *)

Module CategoryFacts.
Import Js Extractor JsFacts.

Section Loop.

Variable lowerText : jsstring.

Let hits (e : jsstring * list jsstring) : nat := count_matches lowerText (snd e).

(** The loop keeps the running pair when no entry beats it, and otherwise
    ends on the first entry that reaches the highest count. *)
Lemma best_loop_spec (entries : list (jsstring * list jsstring)) :
  forall (best : jsstring) (top : nat),
    (Forall (fun e => hits e <= top) entries ->
     best_loop entries lowerText best top = (best, top)) /\
    (Exists (fun e => top < hits e) entries ->
     exists before cat keywords after,
       entries = before ++ (cat, keywords) :: after /\
       best_loop entries lowerText best top
         = (cat, count_matches lowerText keywords) /\
       top < count_matches lowerText keywords /\
       Forall (fun e => hits e < count_matches lowerText keywords) before /\
       Forall (fun e => hits e <= count_matches lowerText keywords) after).
Proof.
  induction entries as [|[cat keywords] entries IH]; intros best top.
  - split; [reflexivity | intro H; inversion H].
  - cbn [best_loop].
    destruct (Nat.ltb_spec top (count_matches lowerText keywords)) as [Hlt | Hge].
    + split.
      * intro H. inversion H as [|? ? Hhd _]; subst. unfold hits in Hhd. simpl in Hhd. lia.
      * intros _.
        destruct (Forall_Exists_dec (fun e => hits e <= count_matches lowerText keywords)
                    (fun e => le_dec (hits e) (count_matches lowerText keywords))
                    entries) as [Hall | Hex].
        -- exists [], cat, keywords, entries.
           destruct (IH cat (count_matches lowerText keywords)) as [IH1 _].
           rewrite (IH1 Hall). repeat split; auto.
        -- destruct (IH cat (count_matches lowerText keywords)) as [_ IH2].
           destruct IH2 as (before & c & kw & after & -> & Hb & Hlt' & Hbef & Haft).
           { eapply Exists_impl; [|exact Hex]. intros a Ha. simpl in Ha. lia. }
           exists ((cat, keywords) :: before), c, kw, after.
           repeat split; auto; try lia.
    + split.
      * intro H. inversion H; subst. destruct (IH best top) as [IH1 _]. auto.
      * intro H. inversion H as [? ? Hhd | ? ? Htl]; subst.
        { unfold hits in Hhd. simpl in Hhd. lia. }
        destruct (IH best top) as [_ IH2].
        destruct (IH2 Htl) as (before & c & kw & after & -> & Hb & Hlt' & Hbef & Haft).
        exists ((cat, keywords) :: before), c, kw, after.
        repeat split; auto.
        constructor; [unfold hits; simpl; lia | exact Hbef].
Qed.

End Loop.

(** [classify] on any table of entries. *)
Lemma classify_spec (entries : list (jsstring * list jsstring)) (lowerText : jsstring) :
  (Forall (fun e => count_matches lowerText (snd e) = 0) entries ->
   classify entries lowerText = str "Other") /\
  (Exists (fun e => 0 < count_matches lowerText (snd e)) entries ->
   exists before keywords after,
     entries = before ++ (classify entries lowerText, keywords) :: after /\
     0 < count_matches lowerText keywords /\
     Forall (fun e => count_matches lowerText (snd e)
                      < count_matches lowerText keywords) before /\
     Forall (fun e => count_matches lowerText (snd e)
                      <= count_matches lowerText keywords) after).
Proof.
  unfold classify.
  destruct (best_loop_spec lowerText entries (str "Other") 0) as [H1 H2].
  split.
  - intro Hall. rewrite H1; [reflexivity|].
    eapply Forall_impl; [|exact Hall]. intros a Ha. rewrite Ha. constructor.
  - intro Hex.
    destruct (H2 Hex) as (before & c & kw & after & Heq & Hb & Hlt & Hbef & Haft).
    rewrite Hb. destruct (Nat.ltb_spec 0 (count_matches lowerText kw)); [|lia].
    exists before, kw, after. auto.
Qed.

Lemma category_eq (text : jsstring) :
  category (parseTransactionFromText text) = classify categoryKeywords (toLowerCase text).
Proof. reflexivity. Qed.

(** C4.  The category of a transcript is decided on its lower-cased text by
    counting, for each category, the keywords that occur in it as
    substrings: when no keyword of any category occurs the category is
    "Other"; otherwise it is the first category in the declaration order
    Food, Transport, Shopping, Entertainment, Utilities, Health, Groceries,
    Home that reaches the highest count (every category declared before it
    has a strictly lower count, every one after it at most the same). *)
Theorem category_is_first_with_highest_count (text : jsstring) :
  let lowerText := toLowerCase text in
  let hits := fun keywords => count_matches lowerText keywords in
  let result := category (parseTransactionFromText text) in
  map fst categoryKeywords
    = map str ["Food"; "Transport"; "Shopping"; "Entertainment"; "Utilities";
               "Health"; "Groceries"; "Home"]%string /\
  (forall keywords,
      hits keywords
      = length (filter (fun k => includes lowerText k) keywords) /\
      forall k, includes lowerText k = true
                <-> exists a b, lowerText = a ++ k ++ b) /\
  (Forall (fun e => hits (snd e) = 0) categoryKeywords -> result = str "Other") /\
  (Exists (fun e => 0 < hits (snd e)) categoryKeywords ->
   exists before keywords after,
     categoryKeywords = before ++ (result, keywords) :: after /\
     0 < hits keywords /\
     Forall (fun e => hits (snd e) < hits keywords) before /\
     Forall (fun e => hits (snd e) <= hits keywords) after).
Proof.
  intros lowerText hits result. subst result hits lowerText.
  rewrite category_eq.
  split; [reflexivity|].
  split; [intro keywords; split; [reflexivity | intro k; apply includes_spec]|].
  apply classify_spec.
Qed.

(** "giant" occurs under Shopping and under Groceries: Shopping, declared
    first, is the category. *)
Lemma category_is_first_with_highest_count_witness :
  let text := str "Giant $20" in
  let hits := fun keywords => count_matches (toLowerCase text) keywords in
  Exists (fun e => 0 < hits (snd e)) categoryKeywords /\
  category (parseTransactionFromText text) = str "Shopping" /\
  exists before keywords after,
    categoryKeywords
    = before ++ (category (parseTransactionFromText text), keywords) :: after /\
    0 < hits keywords /\
    Forall (fun e => hits (snd e) < hits keywords) before /\
    Forall (fun e => hits (snd e) <= hits keywords) after.
Proof.
  intros text hits.
  assert (H : Exists (fun e => 0 < hits (snd e)) categoryKeywords).
  { unfold categoryKeywords. do 2 apply Exists_cons_tl. apply Exists_cons_hd.
    vm_compute. lia. }
  split; [exact H|]. split; [vm_compute; reflexivity|].
  exact (proj2 (proj2 (proj2 (category_is_first_with_highest_count text))) H).
Defined.

End CategoryFacts.

(* ===================================================================== *)
(** ** The matcher on the amount pattern *)
(* ===================================================================== *)

Module EngineFacts.
Import Js Regex Spec Shape JsFacts.

#[local] Arguments is_digit : simpl never.
#[local] Arguments is_space : simpl never.
#[local] Arguments ascii_eqb : simpl never.

Lemma span_digits_spec (s : jsstring) :
  s = fst (span_digits s) ++ snd (span_digits s) /\
  all_digits (fst (span_digits s)) /\
  not_digit_first (snd (span_digits s)).
Proof.
  induction s as [|c s IH]; simpl.
  - repeat split. constructor.
  - destruct (is_digit c) eqn:Hc.
    + destruct (span_digits s) as [ds tl]. simpl in *.
      destruct IH as (IH1 & IH2 & IH3). repeat split.
      * now rewrite <- IH1.
      * constructor; assumption.
      * assumption.
    + simpl. repeat split; [constructor | assumption].
Qed.


(** Greedy [\d*] in front of a continuation that cannot fail takes the whole
    run of digits. *)
Lemma star_digits (k : cont) (Hk : total k) :
  forall (ds tl bh : jsstring) (cs : list (nat * jsstring)) (fuel : nat),
    all_digits ds -> not_digit_first tl -> length (ds ++ tl) <= fuel ->
    star_loop (run Digit) true k fuel (MState bh (ds ++ tl) cs)
    = k (MState (rev ds ++ bh) tl cs).
Proof.
  intros ds tl bh cs fuel Hds. revert bh fuel.
  induction Hds as [|c ds Hc Hds IH]; intros bh fuel Htl Hfuel.
  - simpl. destruct fuel as [|fuel]; [reflexivity|].
    cbn [star_loop run Digit ahead].
    destruct tl as [|c tl]; [reflexivity|].
    simpl in Htl. rewrite Htl. reflexivity.
  - destruct fuel as [|fuel]; [simpl in Hfuel; lia|].
    cbn [star_loop run Digit ahead app behind caps]. rewrite Hc.
    cbn [ahead length].
    replace (length (ds ++ tl) <? S (length (ds ++ tl))) with true
      by (symmetry; apply Nat.ltb_lt; lia).
    rewrite IH; [|assumption | simpl in Hfuel; lia].
    cbn [rev]. rewrite <- app_assoc. cbn [app].
    destruct (k (MState (rev ds ++ c :: bh) tl cs)) eqn:E; [reflexivity|].
    now apply Hk in E.
Qed.


Lemma take_fraction_prefix (tl : jsstring) :
  tl = take_fraction tl ++ skipn (length (take_fraction tl)) tl.
Proof.
  destruct tl as [|p [|f1 [|f2 tl2]]]; try reflexivity; cbn [take_fraction];
    destruct (ascii_eqb "." p && is_digit f1); try reflexivity.
  destruct (is_digit f2); reflexivity.
Qed.

Ltac total_case Hk :=
  match goal with
  | |- context [match ?k ?x with Some _ => _ | None => _ end] =>
      let E := fresh "E" in
      destruct (k x) eqn:E; [|exfalso; revert E; apply Hk]
  end.

Lemma opt_fraction (k : cont) (Hk : total k) (bh tl : jsstring)
    (cs : list (nat * jsstring)) :
  run fractionRegex (MState bh tl cs) k
  = k (MState (rev (take_fraction tl) ++ bh)
              (skipn (length (take_fraction tl)) tl) cs).
Proof.
  unfold fractionRegex, Opt, Lit, Digit.
  destruct tl as [|p [|f1 [|f2 tl2]]]; cbn [run ahead behind caps take_fraction].
  - reflexivity.
  - destruct (ascii_eqb "." p); reflexivity.
  - destruct (ascii_eqb "." p); [|reflexivity].
    destruct (is_digit f1); [|reflexivity].
    cbn [andb rev app length skipn]. total_case Hk; reflexivity.
  - destruct (ascii_eqb "." p); [|reflexivity].
    destruct (is_digit f1); [|reflexivity].
    cbn [andb]. destruct (is_digit f2); cbn [rev app length skipn].
    + total_case Hk; reflexivity.
    + total_case Hk; reflexivity.
Qed.

Lemma capture_text (x tl : jsstring) :
  firstn (length (x ++ tl) - length (skipn (length (take_fraction tl)) tl)) (x ++ tl)
  = x ++ take_fraction tl.
Proof.
  pose proof (take_fraction_prefix tl) as H.
  set (fr := take_fraction tl) in *. set (rest := skipn (length fr) tl) in *.
  assert (E : x ++ tl = (x ++ fr) ++ rest) by (rewrite <- app_assoc; now f_equal).
  rewrite E, length_app.
  replace (length (x ++ fr) + length rest - length rest) with (length (x ++ fr)) by lia.
  rewrite firstn_app, firstn_all, Nat.sub_diag. cbn [firstn]. now rewrite app_nil_r.
Qed.

(** On a run of digits, the capture of [dollarRegex] is the whole run and
    the fraction behind it. *)
Lemma run_amountBody (bh ds tl : jsstring) (cs : list (nat * jsstring)) :
  ds <> [] -> all_digits ds -> not_digit_first tl ->
  run amountBody (MState bh (ds ++ tl) cs) Some
  = Some (MState (rev (take_fraction tl) ++ rev ds ++ bh)
                 (skipn (length (take_fraction tl)) tl)
                 ((1, ds ++ take_fraction tl) :: cs)).
Proof.
  intros Hne Hds Htl. destruct ds as [|d ds]; [contradiction|].
  inversion Hds as [|? ? Hd Hds']; subst.
  unfold amountBody, Plus. cbn [run app ahead behind caps]. unfold Digit at 1.
  cbn [run ahead behind caps]. rewrite Hd.
  set (kg := fun s' : mstate => Some (set_cap 1 _ s')).
  assert (Hkg : total kg) by (intros s'; unfold kg; discriminate).
  assert (Hkf : total (fun s' => run fractionRegex s' kg)).
  { intros [b a c]. rewrite opt_fraction by exact Hkg. apply Hkg. }
  rewrite (star_digits Hkf) by (auto; cbn [ahead]; lia).
  rewrite opt_fraction by exact Hkg.
  unfold kg, set_cap. cbn [ahead behind caps].
  f_equal. f_equal.
  - cbn [rev]. now rewrite <- app_assoc.
  - f_equal. f_equal. apply (capture_text (d :: ds) tl).
Qed.

Lemma run_amountBody_none (s : mstate) (k : cont) :
  not_digit_first (ahead s) -> run amountBody s k = None.
Proof.
  intro H. unfold amountBody, Plus, Digit. cbn [run].
  destruct (ahead s) as [|c tl]; [reflexivity|]. simpl in H. now rewrite H.
Qed.


End EngineFacts.

(* ===================================================================== *)
(** ** Amount extraction *)
(* ===================================================================== *)

Module AmountFacts.
Import Js Regex Extractor Spec Shape JsFacts EngineFacts.

#[local] Arguments is_digit : simpl never.
#[local] Arguments ascii_eqb : simpl never.

Lemma dollarRegex_eq : dollarRegex = Seq (Opt (Lit "$")) amountBody.
Proof. reflexivity. Qed.

Lemma digit_not_dollar (c : ascii) : is_digit c = true -> ascii_eqb "$" c = false.
Proof.
  intro H. destruct (ascii_eqb "$" c) eqn:E; [|reflexivity].
  apply ascii_eqb_eq in E. subst c. discriminate H.
Qed.

Lemma point_not_digit (c : ascii) : ascii_eqb "." c = true -> is_digit c = false.
Proof. intro E. apply ascii_eqb_eq in E. now subst c. Qed.

(** The match of [dollarRegex] at a run of digits, with or without a [$]
    in front. *)
Lemma match_here_amount (dollar : bool) (bh ds tl : jsstring) :
  ds <> [] -> all_digits ds -> not_digit_first tl ->
  match_here dollarRegex bh (dollar_sign dollar ++ ds ++ tl)
  = Some (MatchResult (rev bh) (dollar_sign dollar ++ ds ++ take_fraction tl)
            (skipn (length (take_fraction tl)) tl)
            [(1, ds ++ take_fraction tl)]).
Proof.
  intros Hne Hds Htl. unfold match_here. rewrite dollarRegex_eq.
  unfold Opt, Lit. cbn [run].
  destruct dollar; cbn [dollar_sign app ahead behind caps].
  - replace (ascii_eqb "$" "$") with true by reflexivity.
    rewrite run_amountBody by assumption. cbn [ahead caps].
    f_equal. f_equal.
    change ("$"%char :: ds ++ tl) with (("$"%char :: ds) ++ tl).
    apply (capture_text ("$"%char :: ds) tl).
  - destruct ds as [|d ds]; [contradiction|].
    inversion Hds as [|? ? Hd Hds']; subst.
    cbn [app]. rewrite (digit_not_dollar _ Hd).
    change (d :: ds ++ tl) with ((d :: ds) ++ tl).
    rewrite run_amountBody by assumption. cbn [ahead caps].
    f_equal. f_equal. apply (capture_text (d :: ds) tl).
Qed.

(** No match starts at a character that is neither a digit nor a [$] in
    front of a digit. *)
Lemma match_here_none (bh ah : jsstring) :
  not_digit_first ah ->
  (forall tl, ah = "$"%char :: tl -> not_digit_first tl) ->
  match_here dollarRegex bh ah = None.
Proof.
  intros H1 H2. unfold match_here. rewrite dollarRegex_eq.
  unfold Opt, Lit. cbn [run ahead behind caps].
  destruct ah as [|c ah].
  - now rewrite run_amountBody_none.
  - destruct (ascii_eqb "$" c) eqn:E.
    + apply ascii_eqb_eq in E. subst c.
      rewrite run_amountBody_none by (apply H2; reflexivity).
      now rewrite run_amountBody_none.
    + now rewrite run_amountBody_none.
Qed.

Lemma exec_from_cons (r : regex) (bh : jsstring) (c : ascii) (ah : jsstring) :
  exec_from r bh (c :: ah)
  = match match_here r bh (c :: ah) with
    | Some m => Some m
    | None => exec_from r (c :: bh) ah
    end.
Proof. reflexivity. Qed.

(** The first match of [dollarRegex] in a text whose first digit starts the
    run [ds]: the run with its fraction, and the [$] right before it when
    there is one. *)
Lemma exec_dollar (pre : jsstring) :
  forall (bh ds tl : jsstring),
    no_digit pre -> ds <> [] -> all_digits ds -> not_digit_first tl ->
    exists pre0 dollar,
      pre = pre0 ++ dollar_sign dollar /\
      (dollar = false -> ~ ends_with_dollar pre0) /\
      exec_from dollarRegex bh (pre ++ ds ++ tl)
      = Some (MatchResult (rev bh ++ pre0)
                (dollar_sign dollar ++ ds ++ take_fraction tl)
                (skipn (length (take_fraction tl)) tl)
                [(1, ds ++ take_fraction tl)]).
Proof.
  induction pre as [|c pre IH]; intros bh ds tl Hpre Hne Hds Htl.
  - exists [], false. split; [reflexivity|]. split.
    + intros _ [p Hp]. destruct p; discriminate.
    + pose proof (@match_here_amount false bh ds tl Hne Hds Htl) as Hm.
      cbn [dollar_sign app] in *.
      destruct ds as [|d ds]; [contradiction|].
      cbn [app exec_from] in *. rewrite Hm. now rewrite app_nil_r.
  - inversion Hpre as [|? ? Hc Hpre']; subst.
    destruct pre as [|c' pre].
    + destruct (ascii_eqb "$" c) eqn:E.
      * apply ascii_eqb_eq in E. subst c.
        exists [], true. split; [reflexivity|]. split; [discriminate|].
        pose proof (@match_here_amount true bh ds tl Hne Hds Htl) as Hm.
        cbn [dollar_sign app exec_from] in *. rewrite Hm. now rewrite app_nil_r.
      * destruct (IH (c :: bh) ds tl Hpre' Hne Hds Htl)
          as (pre0 & dollar & Hp & Hnd & Hex).
        destruct pre0; [|discriminate]. destruct dollar; [discriminate|].
        exists [c], false. split; [reflexivity|]. split.
        { intros _ [p Hp']. destruct p as [|x [|y p]]; try discriminate.
          injection Hp' as ->. discriminate E. }
        cbn [app]. rewrite exec_from_cons.
        rewrite match_here_none.
        -- cbn [app] in Hex. rewrite Hex. cbn [rev dollar_sign app].
           now rewrite <- app_assoc.
        -- exact Hc.
        -- intros tl' Htl'. injection Htl' as -> _. discriminate E.
    + destruct (IH (c :: bh) ds tl Hpre' Hne Hds Htl)
        as (pre0 & dollar & Hp & Hnd & Hex).
      exists (c :: pre0), dollar. split; [cbn [app]; now rewrite <- Hp|]. split.
      { intros Hd [p Hp']. destruct p as [|x p].
        - destruct pre0; [|destruct pre0; discriminate].
          destruct dollar; [discriminate|]. discriminate Hp.
        - injection Hp' as -> Hp'. apply (Hnd Hd). now exists p. }
      cbn [app]. rewrite exec_from_cons.
      rewrite match_here_none.
      * cbn [app] in Hex. rewrite Hex. cbn [rev]. now rewrite <- app_assoc.
      * exact Hc.
      * intros tl' Htl'. injection Htl' as _ <-.
        inversion Hpre' as [|? ? Hc' _]; subst. exact Hc'.
Qed.

Lemma exec_dollar_none (ah : jsstring) :
  forall bh, no_digit ah -> exec_from dollarRegex bh ah = None.
Proof.
  induction ah as [|c ah IH]; intros bh H.
  - cbn [exec_from]. now rewrite match_here_none.
  - inversion H as [|? ? Hc Hah]; subst. rewrite exec_from_cons.
    rewrite match_here_none.
    + now apply IH.
    + exact Hc.
    + intros tl Htl. injection Htl as _ <-.
      destruct ah; [exact I|]. inversion Hah; subst. assumption.
Qed.

(** Every text is free of digits, or splits at its first digit. *)
Lemma first_digit_split (text : jsstring) :
  no_digit text \/
  exists pre ds tl,
    text = pre ++ ds ++ tl /\ no_digit pre /\ ds <> [] /\ all_digits ds /\
    not_digit_first tl /\ span_digits (ds ++ tl) = (ds, tl).
Proof.
  induction text as [|c text IH].
  - left. constructor.
  - destruct (is_digit c) eqn:Hc.
    + right. pose proof (span_digits_spec (c :: text)) as (H1 & H2 & H3).
      exists [], (fst (span_digits (c :: text))), (snd (span_digits (c :: text))).
      cbn [app]. repeat split; auto.
      * constructor.
      * cbn [span_digits]. rewrite Hc. destruct (span_digits text). discriminate.
      * rewrite <- H1. now destruct (span_digits (c :: text)).
    + destruct IH as [IH | (pre & ds & tl & -> & H1 & H2 & H3 & H4 & H5)].
      * left. now constructor.
      * right. exists (c :: pre), ds, tl. repeat split; auto. now constructor.
Qed.


Lemma digits_first_needs_digit (n : nat) (rest : regex) :
  needs_digit (Seq (digits n) rest).
Proof.
  intros s k H. unfold digits, Plus, Digit. cbn [run].
  destruct (ahead s) as [|c tl]; [reflexivity|]. simpl in H. now rewrite H.
Qed.

Lemma amountPatterns_need_digit : Forall needs_digit amountPatterns.
Proof.
  unfold amountPatterns. cbn [seq_of].
  repeat (constructor; [apply digits_first_needs_digit|]). constructor.
Qed.

Lemma no_digit_first (ah : jsstring) : no_digit ah -> not_digit_first ah.
Proof. intro H. destruct ah; [exact I|]. now inversion H. Qed.

Lemma exec_needs_digit (r : regex) (Hr : needs_digit r) (ah : jsstring) :
  forall bh, no_digit ah -> exec_from r bh ah = None.
Proof.
  induction ah as [|c ah IH]; intros bh H.
  - cbn [exec_from]. unfold match_here. now rewrite Hr.
  - rewrite exec_from_cons. unfold match_here.
    rewrite Hr by (now apply no_digit_first). apply IH. now inversion H.
Qed.

Lemma amount_from_patterns_none (ps : list regex) (text : jsstring) :
  Forall needs_digit ps -> no_digit text ->
  amount_from_patterns ps text = Num 0%Q.
Proof.
  intros Hps Ht. induction Hps as [|p ps Hp Hps IH]; [reflexivity|].
  cbn [amount_from_patterns]. unfold exec. now rewrite exec_needs_digit.
Qed.

(** Without a digit in the text, no amount pattern applies. *)
Lemma extract_amount_no_digit (text : jsstring) :
  no_digit text -> extract_amount text = Num 0%Q.
Proof.
  intro H. unfold extract_amount, matchAll. cbn [matchAll_from].
  rewrite exec_dollar_none by assumption.
  now apply amount_from_patterns_none; [apply amountPatterns_need_digit|].
Qed.





(** *** Values *)






(** The [amount] field: the extracted amount, rounded. *)
Lemma amount_field (text : jsstring) :
  amount (parseTransactionFromText text)
  = match extract_amount text with
    | Num q => Num (round2 q)
    | NaN => NaN
    end.
Proof.
  change (amount (parseTransactionFromText text))
    with (num_div (Math_round (num_mul (extract_amount text) (Num 100%Q))) (Num 100%Q)).
  destruct (extract_amount text); reflexivity.
Qed.


(** *** Tokens of the text *)









End AmountFacts.

(* ===================================================================== *)
(** ** The extractor and the specification *)
(* ===================================================================== *)

Module ExtractorTheorems.
Import Js Regex Extractor Endpoint Spec Shape JsFacts EngineFacts AmountFacts.





Lemma no_digit_check (s : jsstring) :
  forallb (fun c => negb (is_digit c)) s = true -> no_digit s.
Proof.
  intro H. apply Forall_forall. intros c Hc.
  rewrite forallb_forall in H. specialize (H c Hc). now destruct (is_digit c).
Qed.

(** C9.  A transcript without any digit character has amount 0: the
    currency pattern finds nothing in it and none of the spoken-amount
    patterns matches, since each of them starts with digits.  This is the
    case of every demo transcript and of both fallback transcripts of the
    endpoint. *)
Theorem amount_zero_without_digits :
  (forall text, no_digit text ->
     matchAll dollarRegex text = [] /\
     Forall (fun p => exec p text = None) amountPatterns /\
     num_eq (amount (parseTransactionFromText text)) (Num 0%Q)) /\
  Forall (fun t => no_digit t /\
                   num_eq (amount (parseTransactionFromText t)) (Num 0%Q))
         (demoTranscripts ++ [fallbackTranscript; errorTranscript]).
Proof.
  assert (H : forall text, no_digit text ->
     matchAll dollarRegex text = [] /\
     Forall (fun p => exec p text = None) amountPatterns /\
     num_eq (amount (parseTransactionFromText text)) (Num 0%Q)).
  { intros text Hno. split; [|split].
    - unfold matchAll. cbn [matchAll_from]. now rewrite exec_dollar_none.
    - eapply Forall_impl; [|exact amountPatterns_need_digit].
      intros p Hp. now apply exec_needs_digit.
    - rewrite amount_field, extract_amount_no_digit by assumption. reflexivity. }
  split; [exact H|].
  apply Forall_forall. intros t Ht.
  assert (Hno : no_digit t).
  { apply no_digit_check. revert t Ht. apply forallb_forall. vm_compute. reflexivity. }
  split; [exact Hno | now apply H].
Qed.

(** A spelled-out amount. *)
Lemma amount_zero_without_digits_witness :
  no_digit (str "I spent twelve dollars on chicken rice") /\
  num_eq (amount (parseTransactionFromText
                    (str "I spent twelve dollars on chicken rice")))
         (Num 0%Q).
Proof.
  assert (Hno : no_digit (str "I spent twelve dollars on chicken rice"))
    by (apply no_digit_check; vm_compute; reflexivity).
  split; [exact Hno|].
  exact (proj2 (proj2 (proj1 amount_zero_without_digits _ Hno))).
Defined.

(** C7.  The empty transcript gives amount 0, vendor "Unknown", category
    "Other" and confidence 0.5. *)
Theorem empty_transcript :
  let r := parseTransactionFromText (str "") in
  num_eq (amount r) (Num 0%Q) /\
  vendor r = str "Unknown" /\
  category r = str "Other" /\
  num_eq (parseConfidence r) (Num (5 # 10)%Q) /\
  rawText r = str "".
Proof. vm_compute. repeat split. Qed.

(** *** Confidence *)



Lemma vendor_field (text : jsstring) :
  vendor (parseTransactionFromText text)
  = if 30 <? length (extract_vendor text)
    then substring0 30 (extract_vendor text) ++ str "..."
    else extract_vendor text.
Proof. reflexivity. Qed.


Lemma category_field (text : jsstring) :
  category (parseTransactionFromText text) = extract_category text.
Proof. reflexivity. Qed.




(** *** Vendor *)

(** As soon as one pattern has a capture that stays longer than 2
    characters, the loop returns what the first such pattern yields,
    whatever the variable held before. *)
Lemma vendor_loop_first_nontrivial (ps : list regex) (text : jsstring) :
  forall vendor0,
    Exists (fun p => nontrivial_match p text <> None) ps ->
    vendor_loop ps text vendor0 = spec_vendor ps text.
Proof.
  induction ps as [|p ps IH]; intros vendor0 H; [inversion H|].
  cbn [vendor_loop spec_vendor].
  assert (Hps : nontrivial_match p text = None ->
                Exists (fun p => nontrivial_match p text <> None) ps).
  { intro E. inversion H as [? ? Hp | ? ? Hps]; subst; [contradiction | exact Hps]. }
  unfold nontrivial_match in Hps |- *.
  destruct (exec p text) as [m|]; [|apply IH, Hps; reflexivity].
  destruct (group 1 m) as [[|c g]|].
  - apply IH, Hps. reflexivity.
  - destruct (2 <? length (clean_vendor (c :: g))) eqn:E; [reflexivity|].
    apply IH, Hps. reflexivity.
  - apply IH, Hps. reflexivity.
Qed.

(** C5, at a transcript where it fails.  In "Paid 5 dollars to Al" the
    first vendor pattern captures "Al", two characters without any
    article, and the other two patterns do not match: no pattern yields a
    capture longer than 2 characters, so the vendor of the specification
    is "Unknown".  The extractor returns "Al", and scores it as a vendor:
    the loop has assigned the capture to its variable before looking at
    its length. *)
Theorem vendor_short_capture_kept :
  let text := str "Paid 5 dollars to Al" in
  map (fun p => option_map (group 1) (exec p text)) vendorPatterns
    = [Some (Some (str "Al")); None; None] /\
  clean_vendor (str "Al") = str "Al" /\
  spec_vendor vendorPatterns text = str "Unknown" /\
  vendor (parseTransactionFromText text) = str "Al" /\
  num_eq (parseConfidence (parseTransactionFromText text)) (Num 1%Q).
Proof.
  intro text. split; [|split; [|split; [|split]]]; vm_compute; reflexivity.
Qed.

(** *** The examples of the specification *)

Example coffee_at_starbucks :
  let r := parseTransactionFromText (str "I spent $12.50 on coffee at Starbucks") in
  num_eq (amount r) (Num (1250 # 100)%Q) /\
  vendor r = str "Starbucks" /\
  category r = str "Food" /\
  num_eq (parseConfidence r) (Num 1%Q).
Proof. vm_compute. repeat split. Qed.

Example mrt_fare :
  let r := parseTransactionFromText (str "MRT fare $2.50 to Orchard Road") in
  num_eq (amount r) (Num (250 # 100)%Q) /\
  vendor r = str "Orchard Road" /\
  category r = str "Transport".
Proof. vm_compute. repeat split. Qed.

(** "giant" is a keyword of Shopping and of Groceries; Shopping is declared
    first. *)
Example tie_goes_to_first_declared :
  category (parseTransactionFromText (str "Giant $20")) = str "Shopping".
Proof. vm_compute. reflexivity. Qed.

(** A trailing article leaves the empty vendor. *)
Example vendor_empty :
  vendor (parseTransactionFromText (str "I spent $5 at the")) = str "".
Proof. vm_compute. reflexivity. Qed.

End ExtractorTheorems.

(* ===================================================================== *)
(** ** The endpoint and the specification *)
(* ===================================================================== *)

Module EndpointTheorems.
Import Js Extractor Endpoint Spec.

Lemma fallback_is_local : local_fallback fallback_response.
Proof.
  split; [reflexivity|]. exists fallbackTranscript, (Num (5 # 10)%Q).
  split; [now left | reflexivity].
Qed.

Lemma error_is_local : local_fallback error_response.
Proof.
  split; [reflexivity|]. exists errorTranscript, (Num (3 # 10)%Q).
  split; [right; now left | reflexivity].
Qed.

Lemma transcribe_fails (reply : DeepgramReply) :
  backend_fails reply -> exists e, transcribe reply = Throw e.
Proof.
  destruct reply as [e | e | [a|]]; cbn [backend_fails transcribe]; intro H;
    try (eexists; reflexivity).
  destruct H as [-> | ->]; eexists; reflexivity.
Qed.

(** Every way through the handler, by what it reads. *)
Lemma POST_cases (env : Env) :
  match formData env with
  | Throw _ => POST env = error_response
  | Ok None =>
      POST env = json_status (ErrorBody (str "No audio file provided")) 400
  | Ok (Some _) =>
      if hasApiKey env then
        match arrayBuffer env with
        | Throw _ => POST env = error_response
        | Ok _ =>
            match transcribe (deepgram env) with
            | Throw _ => POST env = fallback_response
            | Ok resp => POST env = resp
            end
        end
      else
        match nth_error demoTranscripts (random env) with
        | Some t => POST env = demo_response t
        | None => POST env = error_response
        end
  end.
Proof.
  unfold POST. destruct (formData env) as [[f|]|e]; cbn [bind try_catch];
    try reflexivity.
  destruct (hasApiKey env); cbn [negb].
  - destruct (arrayBuffer env) as [u|e]; cbn [bind try_catch]; [|reflexivity].
    destruct (transcribe (deepgram env)); reflexivity.
  - destruct (nth_error demoTranscripts (random env)); reflexivity.
Qed.

(** C8.  When the transcription backend fails (the call throws, reports an
    error, or returns no transcript), the endpoint answers with status 200
    and the locally generated fallback transcript together with the
    transaction parsed from it; and every exception raised in the handler
    (reading the form data, reading the audio bytes, calling the backend)
    ends in such a locally generated response. *)
Theorem backend_failure_falls_back (env : Env) :
  (forall f u, formData env = Ok (Some f) -> hasApiKey env = true ->
               arrayBuffer env = Ok u -> backend_fails (deepgram env) ->
               POST env = fallback_response) /\
  (forall e, formData env = Throw e -> POST env = error_response) /\
  (forall f e, formData env = Ok (Some f) -> hasApiKey env = true ->
               arrayBuffer env = Throw e -> POST env = error_response) /\
  (forall f, formData env = Ok (Some f) -> hasApiKey env = false ->
             nth_error demoTranscripts (random env) = None ->
               POST env = error_response) /\
  local_fallback fallback_response /\
  local_fallback error_response.
Proof.
  pose proof (POST_cases env) as H.
  repeat split; try apply fallback_is_local; try apply error_is_local.
  - intros f u Hf Hk Ha Hb. rewrite Hf, Hk, Ha in H.
    destruct (transcribe_fails _ Hb) as [e He]. now rewrite He in H.
  - intros e Hf. now rewrite Hf in H.
  - intros f e Hf Hk Ha. now rewrite Hf, Hk, Ha in H.
  - intros f Hf Hk Hn. now rewrite Hf, Hk, Hn in H.
Qed.

(** The backend reports an error. *)
Lemma backend_failure_falls_back_witness :
  let env := {| formData := Ok (Some tt); hasApiKey := true; random := 0;
                arrayBuffer := Ok tt;
                deepgram := DgError (str "Bad Gateway") |} in
  backend_fails (deepgram env) /\ POST env = fallback_response.
Proof.
  intro env. split; [exact I|].
  exact (proj1 (backend_failure_falls_back env) tt tt eq_refl eq_refl eq_refl I).
Defined.

End EndpointTheorems.

(* ===================================================================== *)
(** ** The store and the specification *)
(* ===================================================================== *)

Module StoreTheorems.
Import Js Store JsFacts.


Lemma remove_absent (id' : jsstring) (l : list Transaction) :
  (forall t, In t l -> id t <> id') ->
  filter (fun t => negb (jsstring_eqb (id t) id')) l = l.
Proof.
  induction l as [|t l IH]; intro H; [reflexivity|]. cbn [filter].
  replace (jsstring_eqb (id t) id') with false.
  - cbn [negb]. f_equal. apply IH. intros t' Ht'. apply H. now right.
  - symmetry. apply jsstring_eqb_neq. apply H. now left.
Qed.

Lemma nth_error_update (id' : jsstring) (updates : Updates) (state : State)
    (i : nat) :
  nth_error (transactions (updateTransaction id' updates state)) i
  = option_map (fun t => if jsstring_eqb (id t) id' then spread t updates else t)
               (nth_error (transactions state) i).
Proof. cbn [updateTransaction transactions]. apply nth_error_map. Qed.




End StoreTheorems.

(* ===================================================================== *)
(** ** The recorder and the specification *)
(* ===================================================================== *)

Module RecorderTheorems.
Import Js Recorder Spec Shape.

Lemma nth_error_modify (f : MediaRecorder -> MediaRecorder) (rs : list MediaRecorder) :
  forall r i,
    nth_error (modify r f rs) i
    = if i =? r then option_map f (nth_error rs i) else nth_error rs i.
Proof.
  induction rs as [|x rs IH]; intros r i.
  - destruct r, i; cbn; try reflexivity; now destruct (i =? r).
  - destruct r as [|r], i as [|i]; cbn [modify nth_error Nat.eqb option_map];
      try reflexivity. apply IH.
Qed.

(** What [stopRecording] does to each component of the world. *)
Lemma stopRecording_fields (w : World) :
  state (stopRecording w) = processing /\
  timers (stopRecording w) = timers w ++ [(nextTimerId w, (now w + failsafe_delay)%N)] /\
  nextTimerId (stopRecording w) = S (nextTimerId w) /\
  now (stopRecording w) = now w /\
  errors (stopRecording w) = errors w /\
  mediaRecorderRef (stopRecording w) = mediaRecorderRef w /\
  recorders (stopRecording w)
  = match mediaRecorderRef w with
    | Some r =>
        modify r
          (fun m => {| mr_state := mr_state m; timeoutId := Some (nextTimerId w);
                       stop_queued := stop_queued m;
                       request_sent := request_sent m |})
          (modify r
             (fun m =>
                match mr_state m with
                | capturing =>
                    {| mr_state := inactive; timeoutId := timeoutId m;
                       stop_queued := true; request_sent := request_sent m |}
                | inactive => m
                end)
             (recorders w))
    | None => recorders w
    end.
Proof.
  destruct w as [st tr hc rs ref ts nid nw errs trs].
  destruct ref as [r|]; lazy; repeat split.
Qed.

















End RecorderTheorems.

(* ===================================================================== *)
(** ** More on the extractor *)
(* ===================================================================== *)

Module ExtractorExtras.
Import Js Regex Extractor Spec Shape ExtraSpec JsFacts CategoryFacts EngineFacts
  AmountFacts ExtractorTheorems.

#[local] Arguments is_digit : simpl never.
#[local] Arguments is_space : simpl never.







(** Whenever one of the five spoken-amount patterns matches a text, the
    currency pattern has a match in it too. *)
Lemma pattern_match_has_digit (p : regex) (text : jsstring) (m : match_result) :
  needs_digit p -> exec p text = Some m ->
  exists m0 rest, matchAll dollarRegex text = m0 :: rest.
Proof.
  intros Hp Hm.
  destruct (first_digit_split text)
    as [Hno | (pre & ds & tl & -> & Hpre & Hne & Hds & Htl & _)].
  - unfold exec in Hm. rewrite (exec_needs_digit Hp) in Hm by assumption.
    discriminate.
  - unfold matchAll. cbn [matchAll_from].
    destruct (@exec_dollar pre [] ds tl Hpre Hne Hds Htl)
      as (pre0 & dollar & _ & _ & ->).
    eexists _, _. reflexivity.
Qed.

(** X2.  The spoken-amount patterns never decide the amount: the loop over
    [amountPatterns] runs only when the currency pattern has found nothing,
    and then none of them matches.  So the amount is read off the first
    run of digits, or is 0. *)
Theorem spoken_patterns_never_apply (text : jsstring) :
  (forall p m, In p amountPatterns -> exec p text = Some m ->
               exists m0 rest, matchAll dollarRegex text = m0 :: rest) /\
  (matchAll dollarRegex text = [] ->
   Forall (fun p => exec p text = None) amountPatterns /\
   extract_amount text = Num 0%Q) /\
  extract_amount text
  = match matchAll dollarRegex text with
    | m0 :: _ => match group 1 m0 with Some s => parseFloat s | None => NaN end
    | [] => Num 0%Q
    end.
Proof.
  assert (H1 : forall p m, In p amountPatterns -> exec p text = Some m ->
                           exists m0 rest, matchAll dollarRegex text = m0 :: rest).
  { intros p m Hin Hm. apply (@pattern_match_has_digit p text m); [|exact Hm].
    pose proof amountPatterns_need_digit as Hall.
    rewrite Forall_forall in Hall. now apply Hall. }
  assert (H2 : matchAll dollarRegex text = [] ->
               Forall (fun p => exec p text = None) amountPatterns).
  { intro He. apply Forall_forall. intros p Hin.
    destruct (exec p text) as [m|] eqn:Em; [|reflexivity].
    destruct (H1 p m Hin Em) as (m0 & rest & Hm0). congruence. }
  assert (H3 : matchAll dollarRegex text = [] ->
               amount_from_patterns amountPatterns text = Num 0%Q).
  { intro He. specialize (H2 He). revert H2.
    generalize amountPatterns as ps. intros ps Hps.
    induction Hps as [|p ps Hp Hps IH]; [reflexivity|].
    cbn [amount_from_patterns]. now rewrite Hp. }
  split; [exact H1|]. split.
  - intro He. split; [now apply H2|]. unfold extract_amount. rewrite He. now apply H3.
  - unfold extract_amount. destruct (matchAll dollarRegex text) eqn:E; [|reflexivity].
    now apply H3.
Qed.

(** "12 dollars and 50 cents": the first spoken-amount pattern matches with
    12 and 50, and the amount is 12. *)
Lemma spoken_patterns_never_apply_witness :
  let text := str "12 dollars and 50 cents" in
  (exists m, exec (nth 0 amountPatterns Empty) text = Some m /\
             group 1 m = Some (str "12") /\ group 2 m = Some (str "50")) /\
  (exists m0 rest, matchAll dollarRegex text = m0 :: rest) /\
  num_eq (amount (parseTransactionFromText text)) (Num 12%Q).
Proof.
  intro text.
  assert (Hm : exists m, exec (nth 0 amountPatterns Empty) text = Some m /\
                         group 1 m = Some (str "12") /\ group 2 m = Some (str "50")).
  { eexists. split; [vm_compute; reflexivity|]. split; vm_compute; reflexivity. }
  split; [exact Hm|]. split.
  - destruct Hm as (m & Hm & _).
    exact (proj1 (spoken_patterns_never_apply text) _ m (or_introl eq_refl) Hm).
  - vm_compute. reflexivity.
Defined.

Lemma parsed_category (text : jsstring) :
  In (category (parseTransactionFromText text)) Modal.categories.
Proof.
  rewrite category_field. unfold extract_category.
  generalize (toLowerCase text) as lowerText. intro lowerText.
  assert (Hkeys : forall c, In c (map fst categoryKeywords) -> In c Modal.categories).
  { intros c Hc. change Modal.categories
      with (map fst categoryKeywords ++ [str "Other"]).
    apply in_or_app. now left. }
  destruct (classify_spec categoryKeywords lowerText) as [H0 H1].
  destruct (Forall_Exists_dec (fun e => count_matches lowerText (snd e) = 0)
              (fun e => Nat.eq_dec (count_matches lowerText (snd e)) 0)
              categoryKeywords) as [Hall | Hex].
  - rewrite (H0 Hall). vm_compute. tauto.
  - destruct H1 as (before & keywords & after & Heq & _).
    { eapply Exists_impl; [|exact Hex]. intros a Ha. simpl in Ha. lia. }
    apply Hkeys. rewrite Heq at 2. rewrite map_app. apply in_or_app. right.
    left. reflexivity.
Qed.

(** X3.  The category of a result is always one of the nine names that the edit
    modal offers. *)
Theorem category_in_closed_set (text : jsstring) :
  In (category (parseTransactionFromText text)) Modal.categories.
Proof. exact (parsed_category text). Qed.


(** *** The shape of the vendor *)

Lemma trimStart_head (s : jsstring) :
  forall c s', trimStart s = c :: s' -> is_space c = false.
Proof.
  induction s as [|x s IH]; intros c s' H; cbn [trimStart] in H; [discriminate|].
  destruct (is_space x) eqn:Ex; [now apply (IH c s')|].
  injection H as <- _. exact Ex.
Qed.

Lemma trimStart_suffix (s : jsstring) : exists p, s = p ++ trimStart s.
Proof.
  induction s as [|x s [p Hp]]; [now exists []|]. cbn [trimStart].
  destruct (is_space x).
  - exists (x :: p). cbn [app]. now rewrite <- Hp.
  - now exists [].
Qed.

Lemma trim_trimmed (s : jsstring) : trimmed (trim s).
Proof.
  unfold trim. set (t := trimStart s). split.
  - intros c s' H. apply (f_equal (@rev ascii)) in H.
    rewrite rev_involutive in H. cbn [rev] in H.
    destruct (trimStart_suffix (rev t)) as [p Hp]. rewrite H in Hp.
    apply (f_equal (@rev ascii)) in Hp. rewrite rev_involutive in Hp.
    rewrite app_assoc, rev_app_distr in Hp. cbn [rev app] in Hp.
    exact (trimStart_head s Hp).
  - intros s' c H. apply (f_equal (@rev ascii)) in H.
    rewrite rev_involutive, rev_app_distr in H. cbn [rev app] in H.
    exact (trimStart_head (rev t) H).
Qed.

Lemma vendor_loop_trimmed (ps : list regex) (text : jsstring) :
  forall vendor0, trimmed vendor0 -> trimmed (vendor_loop ps text vendor0).
Proof.
  induction ps as [|p ps IH]; intros vendor0 H0; [exact H0|].
  cbn [vendor_loop].
  destruct (exec p text) as [m|]; [|now apply IH].
  destruct (group 1 m) as [[|c g]|]; try (now apply IH).
  destruct (2 <? length (clean_vendor (c :: g))).
  - apply trim_trimmed.
  - apply IH. apply trim_trimmed.
Qed.

Lemma extract_vendor_trimmed (text : jsstring) : trimmed (extract_vendor text).
Proof.
  apply vendor_loop_trimmed. split.
  - intros c s' H. injection H as <- _. reflexivity.
  - intros s' c H.
    change (str "Unknown") with (str "Unknow" ++ ["n"%char]) in H.
    apply app_inj_tail in H. destruct H as [_ <-]. reflexivity.
Qed.

Lemma parsed_vendor (text : jsstring) :
  let v := vendor (parseTransactionFromText text) in
  length v <= 33 /\
  trimmed v /\
  (30 < length v -> length v = 33 /\ exists p, v = p ++ str "...").
Proof.
  intro v. subst v. rewrite vendor_field.
  pose proof (extract_vendor_trimmed text) as [Hhd Hlast].
  generalize dependent (extract_vendor text). intros raw Hhd Hlast.
  destruct (Nat.ltb_spec 30 (length raw)) as [Hlong | Hshort].
  - assert (Hlen : length (substring0 30 raw ++ str "...") = 33).
    { unfold substring0. rewrite length_app, firstn_length_le by lia. reflexivity. }
    split; [lia|]. split; [|intros _; split; [exact Hlen | now eexists]].
    split.
    + intros c s' H. destruct raw as [|x raw]; [simpl in Hlong; lia|].
      cbn [substring0 firstn app] in H. injection H as <- _.
      now apply (Hhd x raw).
    + intros s' c H.
      change (str "...") with (str ".." ++ ["."%char]) in H.
      rewrite app_assoc in H. apply app_inj_tail in H. destruct H as [_ <-].
      reflexivity.
  - split; [lia|]. split; [now split|]. lia.
Qed.

(** X4.  The vendor of a result is at most 33 characters long and has no white
    space at either end; a vendor longer than 30 characters is a truncated
    one: 33 characters, the last three of them dots. *)
Theorem vendor_shape (text : jsstring) :
  let v := vendor (parseTransactionFromText text) in
  length v <= 33 /\
  trimmed v /\
  (30 < length v -> length v = 33 /\ exists p, v = p ++ str "...").
Proof. exact (parsed_vendor text). Qed.


(** A long name after "at". *)
Lemma vendor_shape_witness :
  let v := vendor (parseTransactionFromText
                     (str "lunch at Supercalifragilisticexpialidocious Bistro")) in
  30 < length v /\
  v = str "Supercalifragilisticexpialidoc..." /\
  length v = 33.
Proof.
  intro v.
  assert (H : 30 < length v) by (vm_compute; lia).
  split; [exact H|]. split; [vm_compute; reflexivity|].
  exact (proj1 (proj2 (proj2 (vendor_shape _)) H)).
Defined.

End ExtractorExtras.

(* ===================================================================== *)
(** ** More on the endpoint *)
(* ===================================================================== *)

Module EndpointExtras.
Import Js Extractor Endpoint Spec EndpointTheorems.

Lemma transcribe_ok (reply : DeepgramReply) (resp : Response) :
  transcribe reply = Ok resp ->
  exists a t c,
    reply = DgResult (Some a) /\ alt_transcript a = Some t /\ t <> [] /\
    resp = json (TranscriptBody t (parseTransactionFromText t) c None).
Proof.
  destruct reply as [e | e | [a|]]; cbn [transcribe]; try discriminate.
  destruct (alt_transcript a) as [[|x t]|] eqn:Et; try discriminate.
  intro H. injection H as <-. exists a, (x :: t). eexists.
  repeat split; [exact Et | discriminate].
Qed.

Lemma demoTranscripts_nonempty (i : nat) (t : jsstring) :
  nth_error demoTranscripts i = Some t -> t <> [].
Proof.
  intro H. apply nth_error_In in H. revert t H. apply Forall_forall.
  unfold demoTranscripts. cbn [map]. repeat constructor; discriminate.
Qed.

Lemma POST_answer (env : Env) :
  (formData env = Ok None ->
   POST env = json_status (ErrorBody (str "No audio file provided")) 400) /\
  (formData env <> Ok None ->
   status (POST env) = 200 /\
   exists t c d,
     body (POST env) = TranscriptBody t (parseTransactionFromText t) c d /\
     t <> [] /\
     (d = Some true \/
      (d = None /\ hasApiKey env = true /\
       exists a, deepgram env = DgResult (Some a) /\ alt_transcript a = Some t))).
Proof.
  pose proof (POST_cases env) as H. split.
  - intro Hf. now rewrite Hf in H.
  - intro Hf.
    assert (Herr : POST env = error_response ->
                   status (POST env) = 200 /\
                   exists t c d,
                     body (POST env) = TranscriptBody t (parseTransactionFromText t) c d /\
                     t <> [] /\
                     (d = Some true \/
                      (d = None /\ hasApiKey env = true /\
                       exists a, deepgram env = DgResult (Some a) /\
                                 alt_transcript a = Some t))).
    { intros ->. split; [reflexivity|]. eexists _, _, _.
      split; [reflexivity|]. split; [discriminate | now left]. }
    destruct (formData env) as [[f|]|e]; [| contradiction | now apply Herr].
    destruct (hasApiKey env) eqn:Hk.
    + destruct (arrayBuffer env) as [u|e]; [|now apply Herr].
      destruct (transcribe (deepgram env)) as [resp|e] eqn:Et.
      * destruct (transcribe_ok _ Et) as (a & t & c & Hd & Ha & Hne & ->).
        rewrite H. split; [reflexivity|]. exists t, c, None.
        split; [reflexivity|]. split; [exact Hne|]. right.
        split; [reflexivity|]. split; [reflexivity|]. now exists a.
      * rewrite H. split; [reflexivity|]. eexists _, _, _.
        split; [reflexivity|]. split; [discriminate | now left].
    + destruct (nth_error demoTranscripts (random env)) as [t|] eqn:En;
        [|now apply Herr].
      rewrite H. split; [reflexivity|]. eexists _, _, _.
      split; [reflexivity|]. split; [exact (demoTranscripts_nonempty _ En) | now left].
Qed.

(** X5.  The handler answers 400 exactly when the request carries no audio
    file.  Every other answer has status 200 and holds a transcript that is
    not empty together with the transaction parsed from that very
    transcript; it carries the demo flag unless the transcript is the one
    the backend returned. *)
Theorem response_carries_parse_of_its_transcript (env : Env) :
  (formData env = Ok None ->
   POST env = json_status (ErrorBody (str "No audio file provided")) 400) /\
  (formData env <> Ok None ->
   status (POST env) = 200 /\
   exists t c d,
     body (POST env) = TranscriptBody t (parseTransactionFromText t) c d /\
     t <> [] /\
     (d = Some true \/
      (d = None /\ hasApiKey env = true /\
       exists a, deepgram env = DgResult (Some a) /\ alt_transcript a = Some t))).
Proof. exact (POST_answer env). Qed.

(** A request with audio, no key configured. *)
Lemma response_carries_parse_of_its_transcript_witness :
  let env := {| formData := Ok (Some tt); hasApiKey := false; random := 2;
                arrayBuffer := Ok tt; deepgram := DgThrows (str "unused") |} in
  formData env <> Ok None /\ status (POST env) = 200.
Proof.
  intro env.
  assert (H : formData env <> Ok None) by discriminate.
  split; [exact H|].
  exact (proj1 (proj2 (response_carries_parse_of_its_transcript env) H)).
Defined.

End EndpointExtras.

(* ===================================================================== *)
(** ** More on the store *)
(* ===================================================================== *)

Module StoreExtras.
Import Js Store StoreOps StoreSpec JsFacts StoreTheorems.

Lemma jsstring_eqb_refl (a : jsstring) : jsstring_eqb a a = true.
Proof. now apply jsstring_eqb_eq. Qed.

Lemma exact_sum_cons (t : Transaction) (l : list Transaction) :
  exact_sum (t :: l) = (amount_q t + exact_sum l)%Q.
Proof. reflexivity. Qed.

Lemma exact_sum_nil : exact_sum [] = 0%Q.
Proof. reflexivity. Qed.

Lemma sum_from (l : list Transaction) (a : Q) :
  numeric l ->
  exists q,
    fold_left (fun total t => num_add total (amount t)) l (Num a) = Num q /\
    (q == a + exact_sum l)%Q.
Proof.
  revert a. induction l as [|t l IH]; intros a Hn.
  - exists a. split; [reflexivity|]. rewrite exact_sum_nil. ring.
  - inversion Hn as [|? ? Ht Hl]; subst. cbn [fold_left].
    destruct (amount t) as [|x] eqn:Ex; [contradiction|]. cbn [num_add].
    destruct (IH (a + x)%Q Hl) as (q & Hq & Hs). exists q.
    split; [exact Hq|]. rewrite Hs, exact_sum_cons.
    unfold amount_q at 1. rewrite Ex. ring.
Qed.



Lemma sum_amounts_exact (l : list Transaction) :
  numeric l -> exists q, sum_amounts l = Num q /\ (q == exact_sum l)%Q.
Proof.
  intro Hn. destruct (sum_from 0 Hn) as (q & Hq & Hs). exists q.
  split; [exact Hq|]. rewrite Hs. ring.
Qed.










Lemma ids_remove (i : jsstring) (state : State) :
  ids (removeTransaction i state)
  = filter (fun k => negb (jsstring_eqb k i)) (ids state).
Proof.
  unfold ids. cbn [removeTransaction transactions].
  induction (transactions state) as [|t l IH]; [reflexivity|]. cbn [filter map].
  destruct (jsstring_eqb (id t) i); cbn [negb map]; now rewrite IH.
Qed.

Lemma ids_update (i : jsstring) (updates : Updates) (state : State) :
  u_id updates = None ->
  ids (updateTransaction i updates state) = ids state.
Proof.
  intro Hu. unfold ids. cbn [updateTransaction transactions]. rewrite map_map.
  apply map_ext. intro t. destruct (jsstring_eqb (id t) i); [|reflexivity].
  cbn [spread id]. now rewrite Hu.
Qed.

Lemma NoDup_filter_str (f : jsstring -> bool) (l : list jsstring) :
  NoDup l -> NoDup (filter f l).
Proof.
  induction 1 as [|x l Hx Hl IH]; [constructor|]. cbn [filter].
  destruct (f x); [|exact IH]. constructor; [|exact IH].
  intro H. apply filter_In in H. now apply Hx.
Qed.

(** X8.  Adding a transaction under a fresh id and removing it again gives the
    store as it was.  When the generated id is already in use, removing
    the new transaction deletes the older ones with that id too. *)
Theorem add_then_remove (tx : NewTransaction) (gid now : jsstring)
    (state : State) :
  (~ In gid (ids state) ->
   removeTransaction gid (addTransaction tx gid now state) = state) /\
  (In gid (ids state) ->
   length (transactions (removeTransaction gid (addTransaction tx gid now state)))
   < length (transactions state)).
Proof.
  destruct state as [l]. unfold ids. cbn [transactions].
  unfold removeTransaction, addTransaction. cbn [transactions filter id].
  rewrite jsstring_eqb_refl. cbn [negb]. split.
  - intro Hf. f_equal. apply remove_absent. intros t Ht E. apply Hf.
    rewrite <- E. now apply in_map.
  - intro Hin. induction l as [|t l IH]; [contradiction|]. cbn [filter length].
    destruct (jsstring_eqb (id t) gid) eqn:E; cbn [negb length].
    + pose proof (filter_length_le (fun t => negb (jsstring_eqb (id t) gid)) l).
      lia.
    + destruct Hin as [Hin | Hin].
      * apply jsstring_eqb_neq in E. contradiction.
      * apply IH in Hin. lia.
Qed.

Lemma add_then_remove_witness :
  let t := {| id := str "k1"; amount := Num 5%Q; vendor := str "Maxwell";
              category := str "Food"; timestamp := str "2025-01-01T00:00:00.000Z";
              rawText := str "lunch"; confidence := None |} in
  let tx := {| n_amount := Num 3%Q; n_vendor := str "Grab";
               n_category := str "Transport"; n_rawText := str "ride";
               n_confidence := None |} in
  let state := {| transactions := [t] |} in
  removeTransaction (str "k2")
    (addTransaction tx (str "k2") (str "2025-01-02T00:00:00.000Z") state) = state /\
  transactions
    (removeTransaction (str "k1")
       (addTransaction tx (str "k1") (str "2025-01-02T00:00:00.000Z") state)) = [].
Proof.
  intros t tx state. split.
  - apply (proj1 (add_then_remove tx (str "k2") (str "2025-01-02T00:00:00.000Z") state)).
    cbn. intros [H | []]. discriminate.
  - pose proof (proj2 (add_then_remove tx (str "k1") (str "2025-01-02T00:00:00.000Z") state))
      as H.
    assert (Hin : In (str "k1") (ids state)) by (left; reflexivity).
    apply H in Hin. cbn [state transactions length] in Hin.
    destruct (transactions _) as [|x r]; [reflexivity | cbn [length] in Hin; lia].
Defined.

(** X9.  Distinct ids stay distinct: under adding with a fresh id, removing,
    updating with an object that has no id, and clearing. *)
Theorem distinct_ids_preserved (state : State) :
  NoDup (ids state) ->
  (forall tx gid now,
     ~ In gid (ids state) -> NoDup (ids (addTransaction tx gid now state))) /\
  (forall i, NoDup (ids (removeTransaction i state))) /\
  (forall i updates,
     u_id updates = None -> NoDup (ids (updateTransaction i updates state))) /\
  NoDup (ids (clearTransactions state)).
Proof.
  intro H. split; [|split; [|split]].
  - intros tx gid now Hf. unfold ids. cbn [addTransaction transactions map id].
    now constructor.
  - intro i. rewrite ids_remove. now apply NoDup_filter_str.
  - intros i updates Hu. now rewrite ids_update.
  - constructor.
Qed.

Lemma distinct_ids_preserved_witness :
  let t (k : string) :=
    {| id := str k; amount := Num 5%Q; vendor := str "Maxwell";
       category := str "Food"; timestamp := str "2025-01-01T00:00:00.000Z";
       rawText := str "lunch"; confidence := None |} in
  let state := {| transactions := [t "k1"%string; t "k2"%string] |} in
  NoDup (ids state) /\ NoDup (ids (removeTransaction (str "k1") state)).
Proof.
  intros t state.
  assert (H : NoDup (ids state)).
  { constructor; [intros [E | []]; discriminate|].
    constructor; [intros []|constructor]. }
  split; [exact H|].
  exact (proj1 (proj2 (@distinct_ids_preserved state H)) (str "k1")).
Defined.


(** *** Sums per category *)










(** *** Sums over a period *)





End StoreExtras.

(* ===================================================================== *)
(** ** More on the edit form *)
(* ===================================================================== *)

Module ModalExtras.
Import Js Store StoreOps Spec ExtraSpec StoreSpec Modal JsFacts StoreTheorems.

#[local] Open Scope nat_scope.

Lemma round2_bounds (p : Q) :
  (0 < p)%Q ->
  exists N : Z,
    (0 <= N)%Z /\ (round2 p * 100 == inject_Z N)%Q /\
    (0 <= round2 p)%Q /\
    (p - (1 # 200) < round2 p)%Q /\ (round2 p <= p + (1 # 200))%Q.
Proof.
  intro Hp. unfold round2.
  set (x := (p * 100 + (1 # 2))%Q).
  pose proof (Qfloor_le x) as Hlo. pose proof (Qlt_floor x) as Hhi.
  assert (H0 : (0 <= Qfloor x)%Z).
  { change 0%Z with (Qfloor 0). apply Qfloor_resp_le. unfold x. lra. }
  exists (Qfloor x).
  assert (HN : (0 <= inject_Z (Qfloor x))%Q).
  { change 0%Q with (inject_Z 0). now rewrite <- Zle_Qle. }
  rewrite inject_Z_plus in Hhi. change (inject_Z 1) with 1%Q in Hhi.
  unfold x in Hlo, Hhi. fold x in Hlo, Hhi.
  split; [exact H0|]. split; [field|].
  generalize dependent (inject_Z (Qfloor x)). intros n Hlo Hhi HN.
  unfold x in *. clear x.
  split; [|split].
  - apply Qle_shift_div_l; [reflexivity | lra].
  - apply Qlt_shift_div_l; [reflexivity | lra].
  - apply Qle_shift_div_r; [reflexivity | lra].
Qed.

Lemma handleSave_cases (transaction : Transaction) (parsedAmount : number)
    (vendor category : jsstring) :
  match handleSave transaction parsedAmount vendor category with
  | Rejected e =>
      (e = str "Please enter a valid amount" /\
       (parsedAmount = NaN \/ exists p, parsedAmount = Num p /\ (p <= 0)%Q)) \/
      (e = str "Please enter a vendor" /\
       (exists p, parsedAmount = Num p /\ (0 < p)%Q) /\ trim vendor = [])
  | Saved i updates =>
      i = id transaction /\
      exists p N,
        parsedAmount = Num p /\ (0 < p)%Q /\
        updates = {| u_id := None; u_amount := Some (Num (round2 p));
                     u_vendor := Some (trim vendor);
                     u_category := Some category; u_timestamp := None;
                     u_rawText := None; u_confidence := None |} /\
        trim vendor <> [] /\ trimmed (trim vendor) /\
        (0 <= N)%Z /\ (round2 p * 100 == inject_Z N)%Q /\
        (0 <= round2 p)%Q /\
        (p - (1 # 200) < round2 p)%Q /\ (round2 p <= p + (1 # 200))%Q
  end.
Proof.
  unfold handleSave. destruct parsedAmount as [|p]; cbn [isNaN orb num_le].
  - left. split; [reflexivity | now left].
  - destruct (Qle_bool p 0) eqn:Ep.
    + left. split; [reflexivity|]. right. exists p.
      split; [reflexivity | now apply Qle_bool_iff].
    + assert (Hp : (0 < p)%Q).
      { apply Qnot_le_lt. intro H. apply Qle_bool_iff in H. congruence. }
      destruct (trim vendor) as [|c v] eqn:Ev.
      * right. split; [reflexivity|]. split; [now exists p | reflexivity].
      * split; [reflexivity|].
        destruct (round2_bounds Hp) as (N & HN0 & HN & H0 & Hlo & Hhi).
        exists p, N. split; [reflexivity|]. split; [exact Hp|].
        split; [reflexivity|]. split; [discriminate|].
        split; [rewrite <- Ev; apply ExtractorExtras.trim_trimmed|].
        repeat split; assumption.
Qed.



Lemma ids_saved (transaction : Transaction) (parsedAmount : number)
    (vendor category : jsstring) (state : State) :
  ids (save (handleSave transaction parsedAmount vendor category) state)
  = ids state.
Proof.
  pose proof (handleSave_cases transaction parsedAmount vendor category)
    as H.
  destruct (handleSave transaction parsedAmount vendor category) as [e | i updates];
    [reflexivity|].
  destruct H as (_ & p & N & _ & _ & -> & _).
  cbn [save]. now apply StoreExtras.ids_update.
Qed.

(** X13.  Saving the form leaves the ids of the store as they are, changes no
    transaction with another id, and keeps the id, the time, the raw text
    and the confidence of the transaction it edits: a transaction corrected
    by hand still shows the confidence of the extraction. *)
Theorem save_keeps_the_rest (transaction : Transaction) (parsedAmount : number)
    (vendor category : jsstring) (state : State) :
  let saved := save (handleSave transaction parsedAmount vendor category) state in
  ids saved = ids state /\
  forall i t,
    nth_error (transactions state) i = Some t ->
    exists t',
      nth_error (transactions saved) i = Some t' /\
      id t' = id t /\ timestamp t' = timestamp t /\ rawText t' = rawText t /\
      confidence t' = confidence t /\
      (id t <> id transaction -> t' = t).
Proof.
  intro saved. subst saved. split; [apply ids_saved|].
  intros i t Hi.
  pose proof (handleSave_cases transaction parsedAmount vendor category) as H.
  destruct (handleSave transaction parsedAmount vendor category) as [e | i' updates].
  - exists t. cbn [save]. repeat split; trivial.
  - destruct H as (-> & p & N & _ & _ & -> & _). cbn [save].
    rewrite nth_error_update, Hi. cbn [option_map].
    destruct (jsstring_eqb (id t) (id transaction)) eqn:E.
    + eexists. split; [reflexivity|]. unfold spread.
      cbn [id timestamp rawText confidence override u_id u_timestamp u_rawText
           u_confidence].
      repeat split. intro Hne. apply jsstring_eqb_eq in E. contradiction.
    + exists t. repeat split; trivial.
Qed.

Lemma save_keeps_the_rest_witness :
  let t := {| id := str "k1"; amount := Num 5%Q; vendor := str "Maxwel";
              category := str "Food"; timestamp := str "2025-01-01T00:00:00.000Z";
              rawText := str "I spent $5 at Maxwel";
              confidence := Some (Num (97 # 100)%Q) |} in
  let state := {| transactions := [t] |} in
  exists t',
    nth_error
      (transactions (save (handleSave t (Num 6%Q) (str "Maxwell ") (str "Food")) state))
      0 = Some t' /\
    vendor t' = str "Maxwell" /\
    rawText t' = str "I spent $5 at Maxwel" /\
    confidence t' = Some (Num (97 # 100)%Q).
Proof.
  intros t state.
  destruct (proj2 (save_keeps_the_rest t (Num 6%Q) (str "Maxwell ") (str "Food") state)
              0 t eq_refl) as (t' & Hn & _ & _ & Hr & Hc & _).
  exists t'. split; [exact Hn|]. split; [|split; [exact Hr | exact Hc]].
  assert (E : nth_error
                  (transactions (save (handleSave t (Num 6%Q) (str "Maxwell ")
                                         (str "Food")) state)) 0
                = Some (spread t {| u_id := None; u_amount := Some (Num (round2 6));
                                    u_vendor := Some (str "Maxwell");
                                    u_category := Some (str "Food");
                                    u_timestamp := None; u_rawText := None;
                                    u_confidence := None |}))
    by reflexivity.
  rewrite E in Hn. injection Hn as <-. reflexivity.
Defined.

End ModalExtras.

(* ===================================================================== *)
(** ** From the endpoint to the store *)
(* ===================================================================== *)

Module PageExtras.
Import Js Endpoint Store StoreOps Modal Page Spec ExtraSpec StoreSpec Ui JsFacts
  StoreTheorems.


Lemma in_categories_nonempty (c : jsstring) : In c categories -> c <> [].
Proof.
  intros H E. subst c. revert H. vm_compute.
  intuition discriminate.
Qed.


(** The transaction that a response with a transcript puts in the store. *)
Lemma record_expense_ok (env : Env) (generatedId nowISO : jsstring)
    (state : State) :
  formData env <> Ok None ->
  exists t c d,
    t <> [] /\
    body (POST env) = TranscriptBody t (Extractor.parseTransactionFromText t) c d /\
    transactions (record_expense env generatedId nowISO state)
    = {| id := generatedId;
         amount := or_zero (Extractor.amount (Extractor.parseTransactionFromText t));
         vendor := or_string
                     (Some (Extractor.vendor (Extractor.parseTransactionFromText t)))
                     (str "Unknown");
         category := Extractor.category (Extractor.parseTransactionFromText t);
         timestamp := nowISO;
         rawText := t;
         confidence := Some (or_zero c) |} :: transactions state.
Proof.
  intro Hf.
  destruct (proj2 (EndpointExtras.POST_answer env) Hf)
    as (Hst & t & c & d & Hb & Hne & _).
  exists t, c, d. split; [exact Hne|]. split; [exact Hb|].
  unfold record_expense. unfold ok. rewrite Hst. cbn [Nat.leb andb].
  change ((200 <=? 200) && (200 <=? 299)) with true. cbv iota.
  rewrite Hb.
  pose proof (in_categories_nonempty (ExtractorExtras.parsed_category t)) as Hc.
  generalize dependent (Extractor.parseTransactionFromText t). intros p _ Hc.
  unfold addTransaction, handleTranscription, data_of.
  cbn [transactions r_transcript r_amount r_vendor r_category r_confidence
       n_amount n_vendor n_category n_rawText n_confidence or_zero_opt].
  destruct t as [|x t]; [contradiction|]. cbn [or_string].
  destruct (Extractor.category p) as [|y cat]; [contradiction|]. reflexivity.
Qed.




Lemma demo_amounts :
  Forall (fun t => or_zero (Extractor.amount (Extractor.parseTransactionFromText t))
                  = Num 0%Q)
         (errorTranscript :: demoTranscripts).
Proof.
  unfold demoTranscripts. cbn [map].
  repeat (constructor; [vm_compute; reflexivity|]). constructor.
Qed.

(** X15.  Without an API key every recording is stored with amount 0, whatever
    was said, so the total does not change: the transcript is one of the
    ten demo sentences (or the error sentence), and these spell their
    amounts out. *)
Theorem demo_mode_stores_zero (env : Env) (generatedId nowISO : jsstring)
    (state : State) :
  hasApiKey env = false ->
  formData env <> Ok None ->
  exists new,
    transactions (record_expense env generatedId nowISO state)
    = new :: transactions state /\
    amount new = Num 0%Q /\
    (In (rawText new) demoTranscripts \/ rawText new = errorTranscript) /\
    (numeric (transactions state) ->
     exists a b,
       getTotalSpent (record_expense env generatedId nowISO state) = Num a /\
       getTotalSpent state = Num b /\ (a == b)%Q).
Proof.
  intros Hk Hf.
  destruct (@record_expense_ok env generatedId nowISO state Hf)
    as (t & c & d & Hne & Hb & Hs).
  assert (Ht : In t (errorTranscript :: demoTranscripts)).
  { pose proof (EndpointTheorems.POST_cases env) as H. rewrite Hk in H.
    assert (He : POST env = error_response -> In t (errorTranscript :: demoTranscripts)).
    { intro E. rewrite E in Hb. left.
      exact (f_equal (fun b => match b with
                               | TranscriptBody x _ _ _ => x
                               | ErrorBody _ => []
                               end) Hb). }
    destruct (formData env) as [[f|]|e]; [| contradiction | now apply He].
    destruct (nth_error demoTranscripts (random env)) as [t'|] eqn:En;
      [|now apply He].
    rewrite H in Hb. right.
    assert (E : t' = t).
    { exact (f_equal (fun b => match b with
                               | TranscriptBody x _ _ _ => x
                               | ErrorBody _ => []
                               end) Hb). }
    subst t'. eapply nth_error_In. exact En. }
  pose proof (proj1 (Forall_forall _ _) demo_amounts t Ht) as Ha.
  rewrite Ha in Hs.
  eexists. split; [exact Hs|]. split; [reflexivity|]. split.
  - cbn [rawText]. destruct Ht as [<- | Ht]; [now right | now left].
  - intro Hn.
    assert (Hn' : numeric (transactions (record_expense env generatedId nowISO state))).
    { rewrite Hs. constructor; [discriminate | exact Hn]. }
    destruct (StoreExtras.sum_amounts_exact Hn') as (a & Hqa & Hsa).
    destruct (StoreExtras.sum_amounts_exact Hn) as (b & Hqb & Hsb).
    exists a, b. split; [exact Hqa|]. split; [exact Hqb|].
    rewrite Hsa, Hsb, Hs, StoreExtras.exact_sum_cons.
    unfold amount_q at 1. cbn [amount]. ring.
Qed.

Lemma demo_mode_stores_zero_witness :
  let env := {| formData := Ok (Some tt); hasApiKey := false; random := 3;
                arrayBuffer := Ok tt; deepgram := DgThrows (str "unused") |} in
  hasApiKey env = false /\ formData env <> Ok None /\
  exists new,
    transactions (record_expense env (str "k1") (str "now") {| transactions := [] |})
    = [new] /\
    amount new = Num 0%Q.
Proof.
  intro env.
  assert (Hk : hasApiKey env = false) by reflexivity.
  assert (Hf : formData env <> Ok None) by discriminate.
  split; [exact Hk|]. split; [exact Hf|].
  destruct (@demo_mode_stores_zero env (str "k1") (str "now")
              {| transactions := [] |} Hk Hf) as (new & Hs & Ha & _).
  exists new. split; [exact Hs | exact Ha].
Defined.

(** *** The states of the store that the page brings about *)








End PageExtras.

(* ===================================================================== *)
(** ** More on the recorder *)
(* ===================================================================== *)

Module RecorderExtras.
Import Js Recorder RecorderSpec RecorderTheorems.

#[local] Open Scope nat_scope.

(** *** What each handler does to the components of the world *)

Lemma onstop_parts (r : nat) (w : World) :
  state (onstop r w) = state w /\
  now (onstop r w) = now w /\
  transcriptions (onstop r w) = transcriptions w /\
  recorders (onstop r w)
  = modify r (fun m => {| mr_state := mr_state m; timeoutId := timeoutId m;
                          stop_queued := false; request_sent := true |})
           (recorders w) /\
  (exists keep, timers (onstop r w) = filter keep (timers w)).
Proof.
  unfold onstop. destruct (nth_error (recorders w) r) as [m|].
  - destruct (timeoutId m) as [id|].
    + unfold modify_recorder, set_recorders, clearTimeout, set_timers.
      cbn [state now transcriptions recorders timers]. repeat split.
      now eexists.
    + unfold modify_recorder, set_recorders.
      cbn [state now transcriptions recorders timers]. repeat split.
      exists (fun _ => true). symmetry. apply forallb_filter_id.
      now apply forallb_forall.
  - unfold modify_recorder, set_recorders.
    cbn [state now transcriptions recorders timers]. repeat split.
    exists (fun _ => true). symmetry. apply forallb_filter_id.
    now apply forallb_forall.
Qed.

Lemma onstop_resume_parts (r : nat) (reply : jsstring + jsstring) (w : World) :
  state (onstop_resume r reply w) <> processing /\
  now (onstop_resume r reply w) = now w /\
  timers (onstop_resume r reply w) = timers w /\
  transcriptions (onstop_resume r reply w)
  = match reply with
    | inl t => t :: transcriptions w
    | inr _ => transcriptions w
    end /\
  recorders (onstop_resume r reply w)
  = modify r (fun m => {| mr_state := mr_state m; timeoutId := timeoutId m;
                          stop_queued := stop_queued m; request_sent := false |})
           (recorders w).
Proof.
  unfold onstop_resume, modify_recorder, set_recorders, onError, set_state.
  destruct reply; cbn [state now timers transcriptions recorders];
    repeat split; discriminate.
Qed.

Lemma resetRecording_parts (w : World) :
  state (resetRecording w) = idle /\
  transcript (resetRecording w) = [] /\
  hasClip (resetRecording w) = false /\
  now (resetRecording w) = now w /\
  transcriptions (resetRecording w) = transcriptions w /\
  errors (resetRecording w) = errors w /\
  (exists keep, timers (resetRecording w) = filter keep (timers w)) /\
  (exists f, (forall m, mr_state (f m) = mr_state m /\
                        stop_queued (f m) = stop_queued m /\
                        request_sent (f m) = request_sent m) /\
             exists r, recorders (resetRecording w) = modify r f (recorders w)).
Proof.
  assert (Hid : forall ts : list (nat * N), ts = filter (fun _ => true) ts).
  { intro ts. symmetry. apply forallb_filter_id. now apply forallb_forall. }
  assert (Hmod : forall rs : list MediaRecorder, rs = modify 0 (fun m => m) rs).
  { intros [|x rs]; reflexivity. }
  unfold resetRecording. cbn [mediaRecorderRef recorders].
  destruct (mediaRecorderRef w) as [r|].
  - destruct (nth_error (recorders w) r) as [m|].
    + destruct (timeoutId m) as [id|].
      * unfold modify_recorder, set_recorders, clearTimeout, set_timers.
        cbn [state transcript hasClip now transcriptions errors timers recorders].
        repeat split.
        -- now eexists.
        -- eexists. split; [|now exists r]. intro m'. cbn. repeat split.
      * cbn [state transcript hasClip now transcriptions errors timers recorders].
        repeat split.
        -- eexists. apply Hid.
        -- exists (fun m => m). split; [now intro|]. exists 0. apply Hmod.
    + cbn [state transcript hasClip now transcriptions errors timers recorders].
      repeat split.
      * eexists. apply Hid.
      * exists (fun m => m). split; [now intro|]. exists 0. apply Hmod.
  - cbn [state transcript hasClip now transcriptions errors timers recorders].
    repeat split.
    + eexists. apply Hid.
    + exists (fun m => m). split; [now intro|]. exists 0. apply Hmod.
Qed.

Lemma failsafe_parts (id : nat) (w : World) :
  state (failsafe (clearTimeout id w)) <> processing /\
  now (failsafe (clearTimeout id w)) = now w /\
  timers (failsafe (clearTimeout id w))
  = filter (fun t => negb (fst t =? id)) (timers w) /\
  transcriptions (failsafe (clearTimeout id w)) = transcriptions w /\
  recorders (failsafe (clearTimeout id w)) = recorders w.
Proof.
  unfold failsafe, clearTimeout, set_timers, set_state, onError. cbn [state].
  destruct (state w) eqn:E;
    cbn [state now timers transcriptions recorders]; rewrite ?E;
    repeat split; discriminate.
Qed.

Lemma stopRecording_transcriptions (w : World) :
  transcriptions (stopRecording w) = transcriptions w.
Proof.
  destruct w as [st tr hc rs ref ts nid nw errs trs].
  destruct ref as [r|]; reflexivity.
Qed.

(** *** While processing, something is pending *)








(** *** Each recording is transcribed at most once *)

Lemma length_modify (f : MediaRecorder -> MediaRecorder) (rs : list MediaRecorder) :
  forall r, length (modify r f rs) = length rs.
Proof.
  induction rs as [|x rs IH]; intros [|r]; cbn [modify length]; try reflexivity.
  now rewrite IH.
Qed.

Lemma pending_total_app (a b : list MediaRecorder) :
  pending_total (a ++ b) = pending_total a + pending_total b.
Proof.
  induction a as [|x a IH]; [reflexivity|].
  cbn [app]. unfold pending_total in *. cbn [fold_right]. rewrite IH. lia.
Qed.

(** A change of one recorder object changes the total by what it changes
    on that object. *)
Lemma pending_total_modify (f : MediaRecorder -> MediaRecorder)
    (rs : list MediaRecorder) :
  forall r,
    match nth_error rs r with
    | Some m =>
        pending_total (modify r f rs) + pending m
        = pending_total rs + pending (f m)
    | None => modify r f rs = rs
    end.
Proof.
  induction rs as [|x rs IH]; intros [|r]; cbn [modify nth_error]; try reflexivity.
  - unfold pending_total. cbn [fold_right]. lia.
  - specialize (IH r). destruct (nth_error rs r) as [m|].
    + unfold pending_total in *. cbn [fold_right]. lia.
    + now rewrite IH.
Qed.

Lemma pending_total_modify_le (f : MediaRecorder -> MediaRecorder)
    (rs : list MediaRecorder) (r : nat) :
  (forall m, nth_error rs r = Some m -> pending (f m) <= pending m) ->
  pending_total (modify r f rs) <= pending_total rs.
Proof.
  intro H. pose proof (pending_total_modify f rs r) as Hm.
  destruct (nth_error rs r) as [m|].
  - specialize (H m eq_refl). lia.
  - now rewrite Hm.
Qed.

(** What one event does to the counts. *)
Lemma step_counts (w w' : World) (e : Event) :
  step w e = Some w' ->
  length (recorders w') = length (recorders w) + (if is_start e then 1 else 0) /\
  length (transcriptions w')
  = length (transcriptions w) + (if is_ok_reply e then 1 else 0) /\
  pending_total (recorders w') + (if is_ok_reply e then 1 else 0)
  <= pending_total (recorders w) + (if is_start e then 1 else 0).
Proof.
  intro Hstep.
  destruct e as [| msg | | | r | r reply | id | ms];
    cbn [step is_start is_ok_reply] in *.
  - injection Hstep as <-. cbn [startRecording_granted recorders transcriptions].
    rewrite length_app, pending_total_app.
    change (pending_total [_]) with 1. cbn [length]. lia.
  - injection Hstep as <-. unfold startRecording_denied, onError, set_state.
    cbn [recorders transcriptions]. lia.
  - injection Hstep as <-. rewrite stopRecording_transcriptions.
    destruct (stopRecording_fields w) as (_ & _ & _ & _ & _ & _ & ->).
    destruct (mediaRecorderRef w) as [r|]; [|lia].
    rewrite !length_modify. split; [lia|]. split; [lia|].
    rewrite !Nat.add_0_r.
    etransitivity; [apply pending_total_modify_le | apply pending_total_modify_le].
    + intros m _. unfold pending. cbn [mr_state stop_queued request_sent]. lia.
    + intros m _. destruct (mr_state m) eqn:E; [lia|].
      unfold pending. cbn [mr_state stop_queued request_sent]. rewrite E.
      destruct (stop_queued m); lia.
  - injection Hstep as <-.
    destruct (resetRecording_parts w)
      as (_ & _ & _ & _ & -> & _ & _ & (f & Hf & r & ->)).
    rewrite length_modify. split; [lia|]. split; [lia|].
    rewrite !Nat.add_0_r. apply pending_total_modify_le.
    intros m _. unfold pending. destruct (Hf m) as (-> & -> & ->). lia.
  - unfold recorder_has in Hstep.
    destruct (nth_error (recorders w) r) as [m|] eqn:Hm; [|discriminate].
    destruct (stop_queued m) eqn:Hq; [|discriminate]. injection Hstep as <-.
    destruct (onstop_parts r w) as (_ & _ & -> & -> & _).
    rewrite length_modify. split; [lia|]. split; [lia|].
    rewrite !Nat.add_0_r. apply pending_total_modify_le.
    intros m' Hm'. rewrite Hm in Hm'. injection Hm' as <-.
    unfold pending. cbn [mr_state stop_queued request_sent]. rewrite Hq.
    destruct (request_sent m); lia.
  - unfold recorder_has in Hstep.
    destruct (nth_error (recorders w) r) as [m|] eqn:Hm; [|discriminate].
    destruct (request_sent m) eqn:Hq; [|discriminate]. injection Hstep as <-.
    destruct (onstop_resume_parts r reply w) as (_ & _ & _ & -> & ->).
    rewrite length_modify.
    pose proof (pending_total_modify
                  (fun m => {| mr_state := mr_state m; timeoutId := timeoutId m;
                               stop_queued := stop_queued m; request_sent := false |})
                  (recorders w) r) as Hp.
    rewrite Hm in Hp. unfold pending in Hp.
    cbn [mr_state stop_queued request_sent] in Hp. rewrite Hq in Hp.
    destruct reply; cbn [length]; lia.
  - destruct (timer_due id w) as [due|]; [|discriminate].
    destruct (due <=? now w)%N; [|discriminate]. injection Hstep as <-.
    destruct (failsafe_parts id w) as (_ & _ & _ & -> & ->). lia.
  - destruct (forallb _ (timers w)); [|discriminate].
    injection Hstep as <-. cbn [advance recorders transcriptions]. lia.
Qed.

Lemma steps_counts (es : list Event) :
  forall w w',
    steps w es = Some w' ->
    length (recorders w') = length (recorders w) + starts es /\
    length (transcriptions w') = length (transcriptions w) + ok_replies es /\
    pending_total (recorders w') + ok_replies es
    <= pending_total (recorders w) + starts es.
Proof.
  unfold starts, ok_replies.
  induction es as [|e es IH]; intros w w' H; cbn [steps] in H.
  - injection H as <-. cbn [filter length]. lia.
  - destruct (step w e) as [w1|] eqn:E; [|discriminate].
    destruct (step_counts w e E) as (H1 & H2 & H3).
    destruct (IH w1 w' H) as (I1 & I2 & I3).
    cbn [filter]. destruct (is_start e), (is_ok_reply e); cbn [length]; lia.
Qed.

(** X18.  After any sequence of events from the initial world, the page has been
    handed exactly one transcript per reply that carried one, and there are
    no more such replies than recordings started: no recording is
    transcribed twice, whatever the order of clicks, stop events, replies
    and timeouts.  The recordings that still have an event to come are
    counted on top. *)
Theorem one_transcription_per_recording (es : list Event) (w : World) :
  steps initial es = Some w ->
  length (transcriptions w) = ok_replies es /\
  length (recorders w) = starts es /\
  length (transcriptions w) + pending_total (recorders w) <= starts es.
Proof.
  intro H. destruct (steps_counts es initial H) as (H1 & H2 & H3).
  cbn [initial recorders transcriptions length] in *.
  change (pending_total []) with 0 in H3. lia.
Qed.

(** A second reply for the same recorder cannot happen. *)
Lemma one_transcription_per_recording_witness :
  steps initial [StartGranted; Stop; StopEvent 0; Reply 0 (inl (str "lunch"));
                 Reply 0 (inl (str "lunch"))] = None /\
  exists w,
    steps initial [StartGranted; Stop; StopEvent 0; Reply 0 (inl (str "lunch"))]
    = Some w /\
    length (transcriptions w) = 1 /\ length (recorders w) = 1 /\
    pending_total (recorders w) = 0.
Proof.
  split; [vm_compute; reflexivity|].
  eexists. split; [vm_compute; reflexivity|].
  pose proof (@one_transcription_per_recording
                [StartGranted; Stop; StopEvent 0; Reply 0 (inl (str "lunch"))] _
                ltac:(vm_compute; reflexivity)) as (H1 & H2 & H3).
  split; [exact H1|]. split; [exact H2|].
  rewrite H1 in H3. change (ok_replies _) with 1 in H3. change (starts _) with 1 in H3.
  lia.
Defined.

(** *** Reset does not cancel a request *)

(** X19.  [resetRecording] goes back to Idle and drops the transcript and the
    clip, but a request that is in flight stays in flight: when its reply
    comes, the state goes from Idle to Completed and the transcript is
    handed to the page all the same. *)
Theorem reset_keeps_request_in_flight (w : World) (r : nat) (t : jsstring) :
  recorder_has request_sent r w = true ->
  state (resetRecording w) = idle /\
  transcript (resetRecording w) = [] /\
  hasClip (resetRecording w) = false /\
  recorder_has request_sent r (resetRecording w) = true /\
  exists w',
    steps w [ResetClicked; Reply r (inl t)] = Some w' /\
    state w' = completed /\ transcript w' = t /\
    transcriptions w' = t :: transcriptions w.
Proof.
  intro Hr.
  destruct (resetRecording_parts w)
    as (Hst & Htr & Hclip & _ & Hts & _ & _ & (f & Hf & r' & Hrs)).
  assert (Hr' : recorder_has request_sent r (resetRecording w) = true).
  { unfold recorder_has in *. rewrite Hrs, nth_error_modify.
    destruct (nth_error (recorders w) r) as [m|]; [|discriminate].
    destruct (r =? r'); cbn [option_map]; [|exact Hr].
    destruct (Hf m) as (_ & _ & ->). exact Hr. }
  split; [exact Hst|]. split; [exact Htr|]. split; [exact Hclip|].
  split; [exact Hr'|].
  exists (onstop_resume r (inl t) (resetRecording w)). cbn [steps step].
  rewrite Hr'. split; [reflexivity|].
  unfold onstop_resume. cbn [state transcript transcriptions].
  unfold modify_recorder, set_recorders. cbn [transcriptions].
  rewrite Hts. repeat split.
Qed.

Lemma reset_keeps_request_in_flight_witness :
  exists w w',
    steps initial [StartGranted; Stop; StopEvent 0] = Some w /\
    recorder_has request_sent 0 w = true /\
    steps w [ResetClicked; Reply 0 (inl (str "lunch"))] = Some w' /\
    state w' = completed /\ transcriptions w' = [str "lunch"].
Proof.
  eexists. 
  assert (Hr : recorder_has request_sent 0
                 (onstop 0 (stopRecording (startRecording_granted initial))) = true)
    by reflexivity.
  destruct (@reset_keeps_request_in_flight _ 0 (str "lunch") Hr)
    as (_ & _ & _ & _ & w' & Hs & Hst & _ & Htr).
  exists w'. split; [reflexivity|]. split; [exact Hr|].
  split; [exact Hs|]. split; [exact Hst | exact Htr].
Defined.

End RecorderExtras.

(* ===================================================================== *)
(** ** The duration display *)
(* ===================================================================== *)

Module DisplayExtras.
Import Js Display DisplaySpec.

#[local] Open Scope nat_scope.

Lemma split_colon_digits (d : Decimal.uint) (rest : jsstring) :
  split_colon (list_ascii_of_string (NilZero.string_of_uint d) ++ ":"%char :: rest)
  = Some (list_ascii_of_string (NilZero.string_of_uint d), rest).
Proof.
  assert (H : forall u,
             split_colon (list_ascii_of_string (NilEmpty.string_of_uint u)
                          ++ ":"%char :: rest)
             = Some (list_ascii_of_string (NilEmpty.string_of_uint u), rest)).
  { induction u as [|u IH|u IH|u IH|u IH|u IH|u IH|u IH|u IH|u IH|u IH];
      [reflexivity | ..];
      cbn [NilEmpty.string_of_uint list_ascii_of_string app split_colon];
      rewrite IH; reflexivity. }
  destruct d; try apply H. reflexivity.
Qed.

Lemma ofString_toString (n : N) : ofString (toString n) = Some n.
Proof.
  unfold ofString, toString. rewrite string_of_list_ascii_of_string.
  rewrite NilZero.usu.
  - cbn [option_map]. now rewrite DecimalN.Unsigned.of_to.
  - destruct n as [|p]; [discriminate|].
    apply DecimalPos.Unsigned.to_uint_nonnil.
Qed.

Lemma seconds_two_digits (s : N) :
  (s < 60)%N ->
  ofString (padStart2 (toString s)) = Some s /\
  length (padStart2 (toString s)) = 2.
Proof.
  intro H. rewrite <- (N2Nat.id s).
  assert (Hk : N.to_nat s < 60) by lia. revert Hk.
  generalize (N.to_nat s) as k. intros k Hk.
  do 60 (destruct k as [|k]; [split; vm_compute; reflexivity|]). lia.
Qed.

(** X20.  The display of a duration can be read back: it is the minutes, a
    colon, and the seconds below 60 on exactly two digits, so that two
    durations are displayed alike only if they are equal.  The minutes are
    not reduced to hours. *)
Theorem formatDuration_reads_back (seconds : N) :
  readDuration (formatDuration seconds) = Some seconds /\
  (forall other, formatDuration other = formatDuration seconds -> other = seconds) /\
  exists ss,
    formatDuration seconds = toString (seconds / 60)%N ++ ":"%char :: ss /\
    length ss = 2 /\ ofString ss = Some (seconds mod 60)%N.
Proof.
  assert (Hread : forall n, readDuration (formatDuration n) = Some n).
  { intro n. unfold readDuration, formatDuration. cbn [app].
    unfold toString at 1. rewrite split_colon_digits. fold (toString (n / 60)%N).
    rewrite ofString_toString.
    assert (Hlt : (n mod 60 < 60)%N) by (apply N.mod_lt; discriminate).
    destruct (seconds_two_digits Hlt) as [-> ->].
    apply N.ltb_lt in Hlt. rewrite Hlt. cbn [Nat.eqb andb]. f_equal.
    rewrite (N.div_mod n 60) at 3 by discriminate. reflexivity. }
  split; [apply Hread|]. split.
  - intros other H. pose proof (Hread other) as Ho. rewrite H, Hread in Ho.
    now injection Ho.
  - exists (padStart2 (toString (seconds mod 60)%N)).
    split; [reflexivity|].
    assert (Hlt : (seconds mod 60 < 60)%N) by (apply N.mod_lt; discriminate).
    destruct (seconds_two_digits Hlt) as [H1 H2]. now split.
Qed.


(** An hour, two minutes and five seconds. *)
Lemma formatDuration_reads_back_witness :
  formatDuration 3725 = str "62:05" /\
  readDuration (str "62:05") = Some 3725%N /\
  (formatDuration 3725 = formatDuration 3725 -> 3725%N = 3725%N).
Proof.
  assert (E : formatDuration 3725 = str "62:05") by (vm_compute; reflexivity).
  split; [exact E|]. split.
  - rewrite <- E. exact (proj1 (formatDuration_reads_back 3725)).
  - exact (proj1 (proj2 (formatDuration_reads_back 3725)) 3725%N).
Defined.

End DisplayExtras.
